(** * BarbellCalc: the plate calculator of [src/App.jsx]

    A shallow embedding of the two computations of the application,
    the resolution effect of [CalculatorPage] (target weight to plates per
    side) and the accumulation effect of [ReverseCalculatorPage] (plates per
    side to total weight), with the helpers [convertWeight] and
    [roundToDecimal] they share.

    Numbers.  A JavaScript number is modelled as an exact rational or [NaN]:
    the arithmetic of the model is exact, where the source computes in
    IEEE-754 doubles.  Infinities and the sign of zero are not represented. *)

From Stdlib Require Import QArith Qcanon Qcabs Qround ZArith List String Bool Lia.
From Stdlib Require Import Sorting.Sorted Sorting.Permutation.
From Stdlib Require Import Lqa.
Import ListNotations.

Local Open Scope Qc_scope.

(** ** JavaScript numbers *)

Module JS.

Inductive num : Type :=
| NaN
| Fin (q : Qc).

Definition ofZ (z : Z) : Qc := Q2Qc (inject_Z z).

(** [dec n d] is the decimal literal [n / d]. *)
Definition dec (n : Z) (d : positive) : Qc := Q2Qc (n # d).

Definition Qcltb (x y : Qc) : bool :=
  match x ?= y with Lt => true | _ => false end.

Definition Qcleb (x y : Qc) : bool :=
  match x ?= y with Gt => false | _ => true end.

Definition lift2 (f : Qc -> Qc -> Qc) (a b : num) : num :=
  match a, b with
  | Fin x, Fin y => Fin (f x y)
  | _, _ => NaN
  end.

Definition add : num -> num -> num := lift2 Qcplus.
Definition sub : num -> num -> num := lift2 Qcminus.
Definition mul : num -> num -> num := lift2 Qcmult.

(** The divisors the program uses are the constants 2, 1 and 0.453592 and
    plate weights that passed the [weight <= 0] guard: a zero divisor is
    never reached. The quotient is the exact one, where the source rounds it
    to the nearest double: a statement that turns on the value of a quotient
    keeps a margin from the value it is compared with, or is made about the
    quotient as the source has it. *)
Definition div : num -> num -> num := lift2 Qcdiv.

(** [a < b]: false as soon as one side is [NaN]. *)
Definition lt (a b : num) : bool :=
  match a, b with
  | Fin x, Fin y => Qcltb x y
  | _, _ => false
  end.

(** [a > b]. *)
Definition gt (a b : num) : bool := lt b a.

Definition isNaN (a : num) : bool :=
  match a with NaN => true | Fin _ => false end.

Definition Math_abs (a : num) : num :=
  match a with NaN => NaN | Fin x => Fin (Qcabs x) end.

Definition Math_floor (a : num) : num :=
  match a with NaN => NaN | Fin x => Fin (ofZ (Qfloor x)) end.

(** [Math.round] rounds to the nearest integer, a tie towards plus infinity. *)
Definition Math_round (a : num) : num :=
  match a with NaN => NaN | Fin x => Fin (ofZ (Qfloor (x + dec 1 2))) end.

Definition Math_min (a b : num) : num :=
  match a, b with
  | Fin x, Fin y => Fin (if Qcleb x y then x else y)
  | _, _ => NaN
  end.

(** [x % 1 === 0]: the number is an integer. *)
Definition is_whole (a : num) : bool :=
  match a with NaN => false | Fin x => Pos.eqb (Qden x) 1 end.

(** [String(x)] has no exponent part when [x] is zero or
    [1e-6 <= |x| < 1e21]; otherwise it reads like [1e-7] or [1e+21]. *)
Definition plain_decimal (x : Qc) : bool :=
  Qc_eq_bool x 0
  || (Qcleb (dec 1 1000000) (Qcabs x)
      && Qcltb (Qcabs x) (ofZ (10 ^ 21))).

(** [Number(s + 'e' + k)] for the string [s] of a number: the number times
    [10^k] (k an integer), or [NaN] when [s] already has an exponent part
    (as in ['1e-7e3']) or is ['NaN']. The product is the exact one, where
    the source rounds it to the nearest double; the two agree while the
    digits of the number fit a double (15 significant digits). *)
Definition with_exponent (a : num) (k : Z) : num :=
  match a with
  | NaN => NaN
  | Fin x =>
      if plain_decimal x then
        Fin (if (0 <=? k)%Z then x * ofZ (10 ^ k) else x / ofZ (10 ^ (- k)))
      else NaN
  end.

(** The number of times the body of [for (let i = 0; i < n; i++)] runs. *)
Definition iterations (n : num) : nat :=
  match n with NaN => O | Fin x => Z.to_nat (Qceiling x) end.

(** [o || 0] for a number that may be [undefined]. *)
Definition or_zero (o : option Qc) : Qc :=
  match o with
  | None => 0
  | Some x => if Qc_eq_bool x 0 then 0 else x
  end.

End JS.

Import JS.

(** ** Helpers of [App.jsx] *)

Definition lbsToKg : Qc := dec 453592 1000000.

(** [convertWeight(weight, unit, baseUnit = 'lbs')]. *)
Definition convertWeight (weight : num) (unit baseUnit : string) : num :=
  if (String.eqb unit "kg" && String.eqb baseUnit "lbs")%bool
  then mul weight (Fin lbsToKg)
  else if (String.eqb unit "lbs" && String.eqb baseUnit "kg")%bool
  then div weight (Fin lbsToKg)
  else weight.

(** [Number(Math.round(value + 'e' + decimals) + 'e-' + decimals)]. *)
Definition roundToDecimal (value : num) (decimals : nat) : num :=
  with_exponent (Math_round (with_exponent value (Z.of_nat decimals)))
                (- Z.of_nat decimals).

(** ** Inventory

    The items of the inventory context, as [handleSave] stores them: the
    weight is a number in lbs (a finite one, as the data model has it), the
    quantity an integer from [parseInt]. *)

Module Plate.
Record t : Type := mk
  { id : string;
    weight : Qc;
    quantity : Z;
    color : string }.
End Plate.

Module Bar.
Record t : Type := mk
  { id : string;
    name : string;
    weight : Qc }.
End Bar.

(** ** Arrays *)

Section Arrays.
Context {A : Type}.

(** [Array.prototype.sort(compareFn)] is a stable sort: an element goes
    behind another exactly when [compareFn] of the two is positive. The
    call reorders the array it is applied to and returns that same array. *)
Fixpoint sort_insert (compareFn : A -> A -> Qc) (a : A) (l : list A) : list A :=
  match l with
  | [] => [a]
  | b :: l' =>
      if Qcltb 0 (compareFn a b)
      then b :: sort_insert compareFn a l'
      else a :: b :: l'
  end.

Fixpoint Array_sort (compareFn : A -> A -> Qc) (l : list A) : list A :=
  match l with
  | [] => []
  | a :: l' => sort_insert compareFn a (Array_sort compareFn l')
  end.

(** [push] the same element [n] times. *)
Definition push_times (l : list A) (a : A) (n : nat) : list A :=
  l ++ repeat a n.

End Arrays.

(** [(a, b) => b.weight - a.weight]. *)
Definition byWeightDesc (a b : Plate.t) : Qc := Plate.weight b - Plate.weight a.

(** [JSON.parse(JSON.stringify(plates))]: a fresh array of fresh objects
    with the same fields. *)
Definition JSON_copy (plates : list Plate.t) : list Plate.t :=
  map (fun p => Plate.mk (Plate.id p) (Plate.weight p) (Plate.quantity p)
                         (Plate.color p)) plates.

(** [plates.reduce((sum, p) => sum + p.weight, 0)]. *)
Definition sumWeights (plates : list Plate.t) : Qc :=
  fold_left (fun sum p => sum + Plate.weight p) plates 0.

(** ** Results of the calculator *)

(** [x % 1 === 0 ? x : x.toFixed(2)]: the number itself, or the string of
    its two-decimal rendering, kept as the number it renders. *)
Inductive shown : Type :=
| AsNumber (x : num)
| AsFixed2 (x : num).

Definition formatWeight (weight : num) : shown :=
  if is_whole weight then AsNumber weight else AsFixed2 weight.

Definition shown_number (d : shown) : num :=
  match d with AsNumber x | AsFixed2 x => x end.

(** The template strings of the result, with their holes. *)
Inductive Message : Type :=
| MsgLoading                                   (* 'Loading inventory...' *)
| MsgSelectBar                                 (* 'Please select a bar.' *)
| MsgInvalidTarget                             (* 'Enter a valid target weight.' *)
| MsgBelowBar (displayBarWeight : num) (unit : string)
    (* `Weight must be at least the bar weight (${displayBarWeight} ${unit}).` *)
| MsgJustBar (displayBarWeight : num) (unit : string)
    (* `Just the bar (${displayBarWeight} ${unit}).` *)
| MsgClosest (displayLoadedWeight : shown) (unit : string)
    (* `Closest is ${displayLoadedWeight} ${unit}.` *)
| MsgTotal (displayLoadedWeight : shown) (unit : string).
    (* `Total: ${displayLoadedWeight} ${unit}` *)

Record Result : Type := mkResult
  { plates : list Plate.t;
    message : Message }.

(** ** The forward calculation of [CalculatorPage] *)

Definition numSidesOf (calculationType : string) : Z :=
  if String.eqb calculationType "two-sided" then 2%Z else 1%Z.

(** The loop [for (const plate of availablePlates)], carrying
    [weightPerSideInLbs] and [platesForSide]. *)
Fixpoint fillSide (availablePlates : list Plate.t) (numSides : Z)
    (weightPerSideInLbs : num) (platesForSide : list Plate.t)
  : list Plate.t * num :=
  match availablePlates with
  | [] => (platesForSide, weightPerSideInLbs)
  | plate :: rest =>
      if Qcleb (Plate.weight plate) 0
      then fillSide rest numSides weightPerSideInLbs platesForSide
      else
        let platesNeeded :=
          Math_floor
            (add (roundToDecimal
                    (div weightPerSideInLbs (Fin (Plate.weight plate))) 3)
                 (Fin (dec 1 1000000000))) in
        let platesToUse :=
          Math_min platesNeeded
            (Math_floor (div (Fin (ofZ (Plate.quantity plate)))
                             (Fin (ofZ numSides)))) in
        fillSide rest numSides
          (roundToDecimal
             (sub weightPerSideInLbs
                  (mul platesToUse (Fin (Plate.weight plate)))) 3)
          (push_times platesForSide plate (iterations platesToUse))
  end.

(** [parseFloat(targetWeight)] arrives parsed, as [targetWeight];
    [toLbs] is the conversion applied when the unit is ['kg']. *)
Definition toLbs (unit : string) (targetWeight : num) : num :=
  if String.eqb unit "kg" then convertWeight targetWeight "lbs" "kg"
  else targetWeight.

(** The body of the effect from [parseFloat] on, for the bar found.
    Returns the result handed to [setResult] and the [plates] array of the
    inventory context as the call leaves it. *)
Definition resolvePlates (targetWeight : num) (bar : Bar.t)
    (calculationType : string) (inventory : list Plate.t) (unit : string)
  : Result * list Plate.t :=
  let targetInLbs := toLbs unit targetWeight in
  if (isNaN targetInLbs || lt targetInLbs (Fin 0))%bool
  then (mkResult [] MsgInvalidTarget, inventory)
  else
    let barWeightInLbs := Fin (Bar.weight bar) in
    let displayBarWeight := convertWeight barWeightInLbs unit "lbs" in
    if lt targetInLbs barWeightInLbs
    then (mkResult [] (MsgBelowBar displayBarWeight unit), inventory)
    else
      let weightToLoadInLbs := sub targetInLbs barWeightInLbs in
      let numSides := numSidesOf calculationType in
      let weightPerSideInLbs := div weightToLoadInLbs (Fin (ofZ numSides)) in
      if lt (Math_abs weightToLoadInLbs) (Fin (dec 1 100))
      then (mkResult [] (MsgJustBar displayBarWeight unit), inventory)
      else
        let sorted := Array_sort byWeightDesc inventory in
        let availablePlates := JSON_copy sorted in
        let platesForSide :=
          fst (fillSide availablePlates numSides weightPerSideInLbs []) in
        let loadedWeightInLbs :=
          Fin (sumWeights platesForSide * ofZ numSides + Bar.weight bar) in
        let loadedWeight := convertWeight loadedWeightInLbs unit "lbs" in
        let displayLoadedWeight := formatWeight loadedWeight in
        if gt (Math_abs (sub (roundToDecimal loadedWeightInLbs 3)
                             (roundToDecimal targetInLbs 3)))
              (Fin (dec 1 100))
        then (mkResult platesForSide (MsgClosest displayLoadedWeight unit),
              sorted)
        else (mkResult platesForSide (MsgTotal displayLoadedWeight unit),
              sorted).

(** The same body from the guard of line 303 on, for the target as the
    effect holds it in [targetInLbs], whatever conversion produced it. *)
Definition resolveFromLbs (targetInLbs : num) (bar : Bar.t)
    (calculationType : string) (inventory : list Plate.t) (unit : string)
  : Result * list Plate.t :=
  if (isNaN targetInLbs || lt targetInLbs (Fin 0))%bool
  then (mkResult [] MsgInvalidTarget, inventory)
  else
    let barWeightInLbs := Fin (Bar.weight bar) in
    let displayBarWeight := convertWeight barWeightInLbs unit "lbs" in
    if lt targetInLbs barWeightInLbs
    then (mkResult [] (MsgBelowBar displayBarWeight unit), inventory)
    else
      let weightToLoadInLbs := sub targetInLbs barWeightInLbs in
      let numSides := numSidesOf calculationType in
      let weightPerSideInLbs := div weightToLoadInLbs (Fin (ofZ numSides)) in
      if lt (Math_abs weightToLoadInLbs) (Fin (dec 1 100))
      then (mkResult [] (MsgJustBar displayBarWeight unit), inventory)
      else
        let sorted := Array_sort byWeightDesc inventory in
        let availablePlates := JSON_copy sorted in
        let platesForSide :=
          fst (fillSide availablePlates numSides weightPerSideInLbs []) in
        let loadedWeightInLbs :=
          Fin (sumWeights platesForSide * ofZ numSides + Bar.weight bar) in
        let loadedWeight := convertWeight loadedWeightInLbs unit "lbs" in
        let displayLoadedWeight := formatWeight loadedWeight in
        if gt (Math_abs (sub (roundToDecimal loadedWeightInLbs 3)
                             (roundToDecimal targetInLbs 3)))
              (Fin (dec 1 100))
        then (mkResult platesForSide (MsgClosest displayLoadedWeight unit),
              sorted)
        else (mkResult platesForSide (MsgTotal displayLoadedWeight unit),
              sorted).

(** The whole effect: [bars.find(b => b.id === selectedBarId)] and the two
    guards before it. *)
Definition findBar (bars : list Bar.t) (selectedBarId : string) : option Bar.t :=
  find (fun b => String.eqb (Bar.id b) selectedBarId) bars.

Definition calculatorEffect (isLoading : bool) (selectedBarId : string)
    (bars : list Bar.t) (targetWeight : num) (calculationType : string)
    (inventory : list Plate.t) (unit : string)
  : Result * list Plate.t :=
  if (isLoading || String.eqb selectedBarId "")%bool
  then (mkResult [] MsgLoading, inventory)
  else
    match findBar bars selectedBarId with
    | None => (mkResult [] MsgSelectBar, inventory)
    | Some bar => resolvePlates targetWeight bar calculationType inventory unit
    end.

(** ** The reverse calculation of [ReverseCalculatorPage] *)

Definition totalWeightInLbs (selectedPlates : list Plate.t)
    (selectedBarId : string) (bars : list Bar.t) (sidedness : string) : Qc :=
  let barWeightInLbs :=
    or_zero (option_map Bar.weight (findBar bars selectedBarId)) in
  let platesWeightPerSideInLbs := sumWeights selectedPlates in
  let numSides := if String.eqb sidedness "both-sides" then 2%Z else 1%Z in
  barWeightInLbs + (platesWeightPerSideInLbs * ofZ numSides).

(** The value handed to [setTotalWeight]. *)
Definition reverseEffect (selectedPlates : list Plate.t)
    (selectedBarId : string) (bars : list Bar.t) (unit sidedness : string)
  : num :=
  convertWeight
    (Fin (totalWeightInLbs selectedPlates selectedBarId bars sidedness))
    unit "lbs".

(** ** Sample inventory *)

Definition plate45 : Plate.t := Plate.mk "p45" (dec 45 1) 4 "#F97316".
Definition plate25 : Plate.t := Plate.mk "p25" (dec 25 1) 4 "#3B82F6".
Definition plate10 : Plate.t := Plate.mk "p10" (dec 10 1) 4 "#FBBF24".
Definition plate5 : Plate.t := Plate.mk "p5" (dec 5 1) 4 "#10B981".
Definition plate2_5 : Plate.t := Plate.mk "p2.5" (dec 25 10) 4 "#6B7280".

Definition gymPlates : list Plate.t :=
  [plate45; plate25; plate10; plate5; plate2_5].

Definition standardBar : Bar.t := Bar.mk "std" "Standard Barbell" (dec 45 1).
Definition noBar : Bar.t := Bar.mk "no-bar" "No Bar" 0.

Definition gymBars : list Bar.t := [standardBar; noBar].

(** How many references to the plate type [p] a loadout holds. *)
Definition uses (p : Plate.t) (loadout : list Plate.t) : nat :=
  count_occ string_dec (map Plate.id loadout) (Plate.id p).

(** The mathematical sum of a list of weights. *)
Definition total (weights : list Qc) : Qc := fold_right Qcplus 0 weights.

(** A loadout read from the collar outwards never gets heavier. *)
Definition heavierFirst (a b : Plate.t) : Prop :=
  Plate.weight b <= Plate.weight a.

(** ** More of the JavaScript library *)

(** [Math.max(a, b)]. *)
Definition Math_max (a b : num) : num :=
  match a, b with
  | Fin x, Fin y => Fin (if Qcleb x y then y else x)
  | _, _ => NaN
  end.

Section ArrayMethods.
Context {A : Type}.

(** [Array.prototype.filter] with a callback that reads the element and
    its index. *)
Fixpoint filter_from (callbackFn : A -> nat -> bool) (index : nat)
    (l : list A) : list A :=
  match l with
  | [] => []
  | a :: l' =>
      if callbackFn a index
      then a :: filter_from callbackFn (S index) l'
      else filter_from callbackFn (S index) l'
  end.

Definition Array_filter (callbackFn : A -> nat -> bool) (l : list A) : list A :=
  filter_from callbackFn 0 l.

End ArrayMethods.

(** What a rounding returns: [NaN], or an integer moved [decimals]
    places. *)
Definition moved (z : Z) (decimals : nat) : Qc :=
  if (0 <=? - Z.of_nat decimals)%Z
  then ofZ z * ofZ (10 ^ (- Z.of_nat decimals))
  else ofZ z / ofZ (10 ^ (- (- Z.of_nat decimals))).

(** ** The inventory context: [addItem], [updateItem], [deleteItem]

    The three functions serve plates and bars alike. They read an item's
    [id] and [weight], build [{ ...itemData, id }] and
    [{ ...item, ...itemData }]; [itemData] is what [handleSave] hands over,
    every field of the item but its id. *)

Module PlateData.
Record t : Type := mk
  { weight : Qc;
    quantity : Z;
    color : string }.
End PlateData.

Module BarData.
Record t : Type := mk
  { name : string;
    weight : Qc }.
End BarData.

Class Item (A : Type) : Type :=
  { data : Type;
    idOf : A -> string;
    weightOf : A -> Qc;
    (* { ...itemData, id } *)
    withId : data -> string -> A;
    (* { ...item, ...itemData } *)
    spread : A -> data -> A;
    idOf_withId : forall (d : data) (i : string), idOf (withId d i) = i;
    idOf_spread : forall (a : A) (d : data), idOf (spread a d) = idOf a }.

#[export] Instance PlateItem : Item Plate.t :=
  {| data := PlateData.t;
     idOf := Plate.id;
     weightOf := Plate.weight;
     withId := fun d i =>
       Plate.mk i (PlateData.weight d) (PlateData.quantity d)
                (PlateData.color d);
     spread := fun item d =>
       Plate.mk (Plate.id item) (PlateData.weight d) (PlateData.quantity d)
                (PlateData.color d);
     idOf_withId := fun _ _ => eq_refl;
     idOf_spread := fun _ _ => eq_refl |}.

#[export] Instance BarItem : Item Bar.t :=
  {| data := BarData.t;
     idOf := Bar.id;
     weightOf := Bar.weight;
     withId := fun d i => Bar.mk i (BarData.name d) (BarData.weight d);
     spread := fun item d =>
       Bar.mk (Bar.id item) (BarData.name d) (BarData.weight d);
     idOf_withId := fun _ _ => eq_refl;
     idOf_spread := fun _ _ => eq_refl |}.

Section InventoryContext.
Context {A : Type} {ItemA : Item A}.

(** [(a, b) => b.weight - a.weight]. *)
Definition compareWeightDesc (a b : A) : Qc := weightOf b - weightOf a.

(** An item is at least as heavy as the items behind it. *)
Definition heavierItem (a b : A) : Prop := weightOf b <= weightOf a.

(** [newId] is the value of [crypto.randomUUID()]. *)
Definition addItem (prev : list A) (itemData : data) (newId : string)
  : list A :=
  let newItem := withId itemData newId in
  Array_sort compareWeightDesc (prev ++ [newItem]).

Definition updateItem (prev : list A) (id : string) (itemData : data)
  : list A :=
  Array_sort compareWeightDesc
    (map (fun item =>
            if String.eqb (idOf item) id then spread item itemData else item)
         prev).

Definition deleteItem (prev : list A) (id : string) : list A :=
  filter (fun item => negb (String.eqb (idOf item) id)) prev.

End InventoryContext.

(** The seed inventory; the ids stand for the values of
    [crypto.randomUUID()]. *)
Definition defaultPlates (id1 id2 id3 id4 id5 : string) : list Plate.t :=
  [ Plate.mk id1 (dec 45 1) 12 "#F97316";
    Plate.mk id2 (dec 25 1) 4 "#3B82F6";
    Plate.mk id3 (dec 10 1) 6 "#FBBF24";
    Plate.mk id4 (dec 5 1) 6 "#10B981";
    Plate.mk id5 (dec 25 10) 6 "#6B7280" ].

Definition defaultBars (id1 id2 id3 : string) : list Bar.t :=
  [ Bar.mk id1 "Standard Barbell" (dec 45 1);
    Bar.mk id2 "EZ Curl Bar" (dec 10 1);
    Bar.mk id3 "Dumbbell Bar" (dec 5 1);
    Bar.mk "no-bar" "No Bar" 0 ].

(** The values the [plates] array of the context takes: empty at first,
    the seed, then whatever the three functions make of it, and what a run
    of the calculator effect leaves behind. An inventory read back from
    [localStorage] is one that an earlier session stored from its own
    [plates], a value of this kind again. *)
Inductive reachablePlates : list Plate.t -> Prop :=
| reach_initial : reachablePlates []
| reach_default (id1 id2 id3 id4 id5 : string) :
    reachablePlates (defaultPlates id1 id2 id3 id4 id5)
| reach_add (prev : list Plate.t) (itemData : PlateData.t) (newId : string) :
    reachablePlates prev -> reachablePlates (addItem prev itemData newId)
| reach_update (prev : list Plate.t) (id : string) (itemData : PlateData.t) :
    reachablePlates prev -> reachablePlates (updateItem prev id itemData)
| reach_delete (prev : list Plate.t) (id : string) :
    reachablePlates prev -> reachablePlates (deleteItem prev id)
| reach_resolve (prev : list Plate.t) (targetWeight : num) (bar : Bar.t)
    (calculationType unit : string) :
    reachablePlates prev ->
    reachablePlates
      (snd (resolvePlates targetWeight bar calculationType prev unit)).

(** ** The default bar of both pages *)

(** [bars.find(b => b.weight === 45) || bars[0]]. *)
Definition defaultBar (bars : list Bar.t) : option Bar.t :=
  match find (fun b => Qc_eq_bool (Bar.weight b) (dec 45 1)) bars with
  | Some b => Some b
  | None => nth_error bars 0
  end.

(** The effect that picks a bar while none is selected; returns the
    selected bar id it leaves. *)
Definition selectDefaultBar (bars : list Bar.t) (selectedBarId : string)
  : string :=
  if (Nat.ltb 0 (List.length bars) && String.eqb selectedBarId "")%bool
  then match defaultBar bars with
       | Some b => Bar.id b
       | None => selectedBarId
       end
  else selectedBarId.

(** ** The step buttons of [CalculatorPage] *)

Definition getStep (unit calculationType : string) : Qc :=
  if String.eqb unit "lbs"
  then (if String.eqb calculationType "two-sided" then dec 5 1 else dec 25 10)
  else (if String.eqb calculationType "two-sided" then dec 1 1 else dec 5 10).


(** [prev => parseFloat(prev) + getStep()]. *)
Definition incrementTarget (unit calculationType : string) (prev : num) : num :=
  add prev (Fin (getStep unit calculationType)).

(** ** The plate list of [ReverseCalculatorPage] *)

Definition addPlate (prev : list Plate.t) (plate : Plate.t) : list Plate.t :=
  Array_sort byWeightDesc (prev ++ [plate]).

Definition removePlate (prev : list Plate.t) (index : nat) : list Plate.t :=
  Array_filter (fun _ i => negb (Nat.eqb i index)) prev.

(** ** [BarbellVisualizer] *)

Module Visualizer.

Definition VIEW_HEIGHT : Qc := dec 110 1.
Definition PLATE_WIDTH : Qc := dec 14 1.
Definition PLATE_SPACING : Qc := dec 2 1.
Definition BAR_COLLAR_WIDTH : Qc := dec 6 1.
Definition MAX_BAR_SHAFT_LENGTH : Qc := dec 150 1.
Definition MIN_BAR_SHAFT_LENGTH : Qc := dec 40 1.
Definition SLEEVE_LENGTH : Qc := dec 5 1 * (PLATE_WIDTH + PLATE_SPACING).

(** [bar] is [bars.find(...) || {}]: [None] stands for the empty object,
    whose [id] and [weight] are [undefined]. *)
Definition getBarShaftLength (bar : option Bar.t) : num :=
  match bar with
  | None => NaN
  | Some b =>
      if String.eqb (Bar.id b) "no-bar" then Fin MIN_BAR_SHAFT_LENGTH
      else if Qcleb (dec 45 1) (Bar.weight b) then Fin MAX_BAR_SHAFT_LENGTH
      else if Qcleb (Bar.weight b) (dec 5 1) then Fin MIN_BAR_SHAFT_LENGTH
      else
        let weightRatio := (Bar.weight b - dec 5 1) / (dec 45 1 - dec 5 1) in
        Fin (MIN_BAR_SHAFT_LENGTH
             + (MAX_BAR_SHAFT_LENGTH - MIN_BAR_SHAFT_LENGTH) * weightRatio)
  end.

Definition lighterFirst (a b : Plate.t) : Prop :=
  Plate.weight a <= Plate.weight b.

(** [(a, b) => a.weight - b.weight]. *)
Definition byWeightAsc (a b : Plate.t) : Qc := Plate.weight a - Plate.weight b.

(** [[...platesOnBar].sort(...)]: the copies are sorted, not the prop. *)
Definition platesAsc (platesOnBar : list Plate.t) : list Plate.t :=
  Array_sort byWeightAsc platesOnBar.

Definition platesDesc (platesOnBar : list Plate.t) : list Plate.t :=
  Array_sort byWeightDesc platesOnBar.

Definition getPlateDisplayHeight (plate : Plate.t) : Qc :=
  let maxWeight := dec 45 1 in
  let minWeight := dec 25 10 in
  let maxHeight := dec 100 1 in
  let minHeight := dec 35 1 in
  if Qcleb maxWeight (Plate.weight plate) then maxHeight
  else if Qcleb (Plate.weight plate) minWeight then minHeight
  else
    let weightRatio := (Plate.weight plate - minWeight) / (maxWeight - minWeight) in
    minHeight + (maxHeight - minHeight) * weightRatio.

(** One [<g>] of a plate: the translation, the rectangle and the label. *)
Record PlateRect : Type := mkRect
  { xPos : Qc;
    rectY : Qc;
    rectHeight : Qc;
    fill : string;
    label : num }.

(** [plates.map((plate, index) => ...)] with the running [offset]. *)
Fixpoint renderFrom (unit : string) (offset : Qc) (plates : list Plate.t)
  : list PlateRect :=
  match plates with
  | [] => []
  | plate :: rest =>
      let displayHeight := getPlateDisplayHeight plate in
      mkRect offset ((VIEW_HEIGHT - displayHeight) / dec 2 1) displayHeight
             (Plate.color plate)
             (convertWeight (Fin (Plate.weight plate)) unit "lbs")
      :: renderFrom unit (offset + (PLATE_WIDTH + PLATE_SPACING)) rest
  end.

Definition renderPlateStack (unit : string) (plates : list Plate.t)
  : list PlateRect :=
  renderFrom unit 0 plates.

(** [plates.reduce((acc) => acc + PLATE_WIDTH + PLATE_SPACING, 0)]. *)
Definition effectivePlatesWidth (plates : list Plate.t) : Qc :=
  fold_left (fun acc _ => acc + PLATE_WIDTH + PLATE_SPACING) plates 0.

Definition Qcmax (x y : Qc) : Qc := if Qcleb x y then y else x.

Definition effectiveLeftSleeveLength (platesOnBar : list Plate.t) : Qc :=
  Qcmax SLEEVE_LENGTH (effectivePlatesWidth (platesAsc platesOnBar)).

Definition effectiveRightSleeveLength (platesOnBar : list Plate.t) : Qc :=
  Qcmax SLEEVE_LENGTH (effectivePlatesWidth (platesDesc platesOnBar)).

Definition totalContentWidth (bar : option Bar.t) (platesOnBar : list Plate.t)
  : num :=
  add (add (add (add (Fin (effectiveLeftSleeveLength platesOnBar))
                     (Fin BAR_COLLAR_WIDTH))
                (getBarShaftLength bar))
           (Fin BAR_COLLAR_WIDTH))
      (Fin (effectiveRightSleeveLength platesOnBar)).

Definition viewboxWidth (bar : option Bar.t) (platesOnBar : list Plate.t)
  : num :=
  Math_max (totalContentWidth bar platesOnBar) (Fin (dec 300 1)).

Definition xOffset (bar : option Bar.t) (platesOnBar : list Plate.t) : num :=
  div (sub (viewboxWidth bar platesOnBar) (totalContentWidth bar platesOnBar))
      (Fin (dec 2 1)).

Definition leftCollarX (platesOnBar : list Plate.t) : Qc :=
  effectiveLeftSleeveLength platesOnBar.

(** The translation of the left stack:
    [leftCollarX - effectiveLeftPlatesWidth]. *)
Definition leftPlatesX (platesOnBar : list Plate.t) : Qc :=
  leftCollarX platesOnBar - effectivePlatesWidth (platesAsc platesOnBar).

Definition rightSleeveX (bar : option Bar.t) (platesOnBar : list Plate.t)
  : num :=
  add (add (add (Fin (effectiveLeftSleeveLength platesOnBar))
                (Fin BAR_COLLAR_WIDTH))
           (getBarShaftLength bar))
      (Fin BAR_COLLAR_WIDTH).

End Visualizer.

(** * Properties *)

(** ** Comparisons and arithmetic *)

Lemma Qcltb_true (x y : Qc) : Qcltb x y = true <-> x < y.
Proof.
  unfold Qcltb. rewrite Qclt_alt.
  destruct (x ?= y); split; congruence.
Qed.

Lemma Qcltb_false (x y : Qc) : Qcltb x y = false <-> y <= x.
Proof.
  split; intro H.
  - apply Qcnot_lt_le. intro L. apply Qcltb_true in L. congruence.
  - destruct (Qcltb x y) eqn:E; [|reflexivity].
    apply Qcltb_true in E. exfalso. exact (Qcle_not_lt _ _ H E).
Qed.

Lemma Qcleb_true (x y : Qc) : Qcleb x y = true <-> x <= y.
Proof.
  unfold Qcleb. rewrite Qcle_alt.
  destruct (x ?= y); split; congruence.
Qed.

Lemma Qcleb_false (x y : Qc) : Qcleb x y = false <-> y < x.
Proof.
  split; intro H.
  - apply Qcnot_le_lt. intro L. apply Qcleb_true in L. congruence.
  - destruct (Qcleb x y) eqn:E; [|reflexivity].
    apply Qcleb_true in E. exfalso. exact (Qcle_not_lt _ _ E H).
Qed.

Lemma byWeightDesc_pos (a b : Plate.t) :
  Qcltb 0 (byWeightDesc a b) = true <-> Plate.weight a < Plate.weight b.
Proof.
  rewrite Qcltb_true. unfold byWeightDesc, Qcminus.
  symmetry. apply Qclt_minus_iff.
Qed.

Lemma or_zero_Some (x : Qc) : or_zero (Some x) = x.
Proof.
  simpl. destruct (Qc_eq_bool x 0) eqn:E; [|reflexivity].
  symmetry. now apply Qc_eq_bool_correct.
Qed.

Lemma this_ofZ (z : Z) : (this (ofZ z) == inject_Z z)%Q.
Proof. unfold ofZ, Q2Qc. cbn [this]. apply Qred_correct. Qed.

(** [Math.floor(quantity / numSides)] is the integer quotient, rounded down. *)
Lemma floor_quotient (q n : Z) :
  Math_floor (div (Fin (ofZ q)) (Fin (ofZ n))) = Fin (ofZ (q / n)%Z).
Proof.
  unfold Math_floor, div, lift2. do 2 f_equal. rewrite Zdiv_Qdiv.
  apply Qfloor_comp. unfold Qcdiv, Qcmult, Qcinv, Q2Qc. cbn [this].
  rewrite !Qred_correct, !this_ofZ. reflexivity.
Qed.

Lemma iterations_min (needed : num) (cap : Z) :
  (iterations (Math_min needed (Fin (ofZ cap))) <= Z.to_nat cap)%nat.
Proof.
  destruct needed as [|x]; cbn [Math_min iterations]; [lia|].
  match goal with
  | |- (Z.to_nat ?a <= _)%nat => assert (H : (a <= cap)%Z)
  end; [| lia].
  apply Z.le_trans with (Qceiling (inject_Z cap));
    [| rewrite Qceiling_Z; apply Z.le_refl].
  apply Qceiling_resp_le.
  destruct (Qcleb x (ofZ cap)) eqn:E.
  - apply Qcleb_true in E. unfold Qcle in E. now rewrite this_ofZ in E.
  - rewrite this_ofZ. apply Qle_refl.
Qed.

(** ** [Array.prototype.sort] with [byWeightDesc] *)

Lemma sort_insert_perm {A : Type} (cmp : A -> A -> Qc) (a : A) (l : list A) :
  Permutation (a :: l) (sort_insert cmp a l).
Proof.
  induction l as [|b l IH]; cbn [sort_insert]; [reflexivity|].
  destruct (Qcltb 0 (cmp a b)); [|reflexivity].
  rewrite perm_swap. now apply perm_skip.
Qed.

Lemma Array_sort_perm {A : Type} (cmp : A -> A -> Qc) (l : list A) :
  Permutation l (Array_sort cmp l).
Proof.
  induction l as [|a l IH]; cbn [Array_sort]; [reflexivity|].
  rewrite <- sort_insert_perm. now apply perm_skip.
Qed.

Lemma sort_insert_sorted (a : Plate.t) (l : list Plate.t) :
  StronglySorted heavierFirst l ->
  StronglySorted heavierFirst (sort_insert byWeightDesc a l).
Proof.
  induction 1 as [|b l Hl IH Hb]; cbn [sort_insert].
  - repeat constructor.
  - destruct (Qcltb 0 (byWeightDesc a b)) eqn:E.
    + apply byWeightDesc_pos in E. constructor; [exact IH|].
      rewrite <- sort_insert_perm. constructor; [|exact Hb].
      now apply Qclt_le_weak.
    + assert (Hab : heavierFirst a b).
      { unfold byWeightDesc in E. apply Qcltb_false in E.
        unfold heavierFirst. apply Qcle_minus_iff.
        apply Qcopp_le_compat in E.
        replace (Plate.weight a + - Plate.weight b)
          with (- (Plate.weight b - Plate.weight a)) by ring.
        exact E. }
      constructor; [now constructor|]. constructor; [exact Hab|].
      eapply Forall_impl; [|exact Hb]. intros c Hc.
      unfold heavierFirst in *. now apply Qcle_trans with (Plate.weight b).
Qed.

Lemma Array_sort_sorted (l : list Plate.t) :
  StronglySorted heavierFirst (Array_sort byWeightDesc l).
Proof.
  induction l as [|a l IH]; cbn [Array_sort]; [constructor|].
  now apply sort_insert_sorted.
Qed.

(** Sorting an array that is already heaviest-first leaves every element
    in its place. *)
Lemma Array_sort_fixed (l : list Plate.t) :
  StronglySorted heavierFirst l -> Array_sort byWeightDesc l = l.
Proof.
  induction 1 as [|a l Hl IH Ha]; cbn [Array_sort]; [reflexivity|].
  rewrite IH. destruct l as [|b l]; [reflexivity|]. cbn [sort_insert].
  destruct (Qcltb 0 (byWeightDesc a b)) eqn:E; [|reflexivity].
  apply byWeightDesc_pos in E. inversion Ha as [|? ? Hab _]; subst.
  exfalso. exact (Qcle_not_lt _ _ Hab E).
Qed.

Lemma Array_sort_idempotent (l : list Plate.t) :
  Array_sort byWeightDesc (Array_sort byWeightDesc l) = Array_sort byWeightDesc l.
Proof. apply Array_sort_fixed, Array_sort_sorted. Qed.

Lemma JSON_copy_same (l : list Plate.t) : JSON_copy l = l.
Proof.
  unfold JSON_copy. induction l as [|[i w q c] l IH]; cbn; [reflexivity|].
  now f_equal.
Qed.

(** ** The loop over the available plates *)

Lemma fillSide_acc (available : list Plate.t) (numSides : Z) :
  forall (w : num) (acc : list Plate.t),
    fst (fillSide available numSides w acc)
    = acc ++ fst (fillSide available numSides w []).
Proof.
  induction available as [|plate rest IH]; intros w acc; cbn [fillSide].
  - cbn. now rewrite app_nil_r.
  - destruct (Qcleb (Plate.weight plate) 0); [apply IH|].
    rewrite IH. symmetry. rewrite IH. unfold push_times.
    now rewrite app_nil_l, app_assoc.
Qed.

(** One turn of the loop for a plate of positive weight. *)
Lemma fillSide_step (plate : Plate.t) (rest : list Plate.t) (numSides : Z)
    (w : num) :
  Qcleb (Plate.weight plate) 0 = false ->
  exists (k : nat) (w' : num),
    (k <= Z.to_nat (Plate.quantity plate / numSides))%nat /\
    fst (fillSide (plate :: rest) numSides w [])
    = repeat plate k ++ fst (fillSide rest numSides w' []).
Proof.
  intros Hpos. cbn [fillSide]. rewrite Hpos, floor_quotient.
  eexists _, _. split; [apply iterations_min|].
  rewrite fillSide_acc. reflexivity.
Qed.

Lemma fillSide_In (available : list Plate.t) (numSides : Z) :
  forall (w : num) (p : Plate.t),
    In p (fst (fillSide available numSides w [])) -> In p available.
Proof.
  induction available as [|plate rest IH]; intros w p Hp.
  - exact Hp.
  - destruct (Qcleb (Plate.weight plate) 0) eqn:E.
    + cbn [fillSide] in Hp. rewrite E in Hp. right. eapply IH, Hp.
    + destruct (fillSide_step plate rest numSides w E) as (k & w' & _ & Heq).
      rewrite Heq in Hp. apply in_app_or in Hp as [Hp|Hp].
      * left. symmetry. eapply repeat_spec, Hp.
      * right. eapply IH, Hp.
Qed.

Lemma fillSide_sorted (available : list Plate.t) (numSides : Z) :
  StronglySorted heavierFirst available ->
  forall w : num,
    StronglySorted heavierFirst (fst (fillSide available numSides w [])).
Proof.
  induction 1 as [|plate rest Hrest IH Hplate]; intros w; [constructor|].
  destruct (Qcleb (Plate.weight plate) 0) eqn:E.
  - cbn [fillSide]. rewrite E. apply IH.
  - destruct (fillSide_step plate rest numSides w E) as (k & w' & _ & Heq).
    rewrite Heq. clear Heq.
    assert (Hall : Forall (heavierFirst plate)
                          (fst (fillSide rest numSides w' []))).
    { apply Forall_forall. intros p Hp. apply fillSide_In in Hp.
      revert p Hp. now apply Forall_forall. }
    induction k as [|k IHk]; cbn [repeat app]; [apply IH|].
    constructor; [exact IHk|].
    apply Forall_app. split; [|exact Hall].
    apply Forall_forall. intros p Hp. apply repeat_spec in Hp. subst p.
    unfold heavierFirst. apply Qcle_refl.
Qed.

Lemma uses_repeat_same (p plate : Plate.t) (k : nat) :
  Plate.id plate = Plate.id p -> uses p (repeat plate k) = k.
Proof.
  intros H. unfold uses. rewrite map_repeat.
  now apply count_occ_repeat_eq.
Qed.

Lemma uses_repeat_other (p plate : Plate.t) (k : nat) :
  Plate.id plate <> Plate.id p -> uses p (repeat plate k) = O.
Proof.
  intros H. unfold uses. rewrite map_repeat.
  apply count_occ_repeat_neq. congruence.
Qed.

Lemma uses_app (p : Plate.t) (l1 l2 : list Plate.t) :
  uses p (l1 ++ l2) = (uses p l1 + uses p l2)%nat.
Proof. unfold uses. rewrite map_app. apply count_occ_app. Qed.

Lemma fillSide_uses (available : list Plate.t) (numSides : Z) (p : Plate.t) :
  NoDup (map Plate.id available) ->
  forall (bound : nat) (w : num),
    (forall plate, In plate available -> Plate.id plate = Plate.id p ->
                   (Z.to_nat (Plate.quantity plate / numSides) <= bound)%nat) ->
    (uses p (fst (fillSide available numSides w [])) <= bound)%nat.
Proof.
  induction available as [|plate rest IH]; intros Hnd bound w Hbound.
  - cbn. lia.
  - cbn [map] in Hnd. apply NoDup_cons_iff in Hnd as [Hfresh Hnd].
    destruct (Qcleb (Plate.weight plate) 0) eqn:E.
    + cbn [fillSide]. rewrite E. apply IH; [exact Hnd|].
      intros q Hq. apply Hbound. now right.
    + destruct (fillSide_step plate rest numSides w E) as (k & w' & Hk & Heq).
      rewrite Heq, uses_app.
      destruct (string_dec (Plate.id plate) (Plate.id p)) as [Hid|Hid].
      * rewrite (uses_repeat_same _ _ _ Hid).
        assert (H0 : (uses p (fst (fillSide rest numSides w' [])) <= 0)%nat).
        { apply IH; [exact Hnd|]. intros q Hq Hqid. exfalso.
          apply Hfresh. rewrite Hid, <- Hqid. now apply in_map. }
        specialize (Hbound plate (or_introl eq_refl) Hid). lia.
      * rewrite (uses_repeat_other _ _ _ Hid). cbn [Nat.add].
        apply IH; [exact Hnd|]. intros q Hq. apply Hbound. now right.
Qed.

Lemma NoDup_id_unique (l : list Plate.t) (p q : Plate.t) :
  NoDup (map Plate.id l) -> In p l -> In q l -> Plate.id p = Plate.id q ->
  p = q.
Proof.
  induction l as [|a l IH]; intros Hnd Hp Hq Hid; [contradiction|].
  cbn [map] in Hnd. apply NoDup_cons_iff in Hnd as [Hfresh Hnd].
  destruct Hp as [->|Hp], Hq as [->|Hq]; try reflexivity.
  - exfalso. apply Hfresh. rewrite Hid. now apply in_map.
  - exfalso. apply Hfresh. rewrite <- Hid. now apply in_map.
  - now apply IH.
Qed.

(** ** The paths through [resolvePlates] *)

(** The call either returns early, with no plates and the inventory array
    untouched, or sorts the inventory array in place and fills one side
    from it. *)
Lemma resolvePlates_paths (targetWeight : num) (bar : Bar.t)
    (calculationType : string) (inventory : list Plate.t) (unit : string) :
  let r := resolvePlates targetWeight bar calculationType inventory unit in
  (plates (fst r) = [] /\ snd r = inventory)
  \/ (exists w : num,
        plates (fst r)
        = fst (fillSide (Array_sort byWeightDesc inventory)
                        (numSidesOf calculationType) w [])
        /\ snd r = Array_sort byWeightDesc inventory).
Proof.
  unfold resolvePlates.
  destruct (isNaN (toLbs unit targetWeight)
            || lt (toLbs unit targetWeight) (Fin 0))%bool; [now left|].
  destruct (lt (toLbs unit targetWeight) (Fin (Bar.weight bar)));
    [now left|].
  destruct (lt (Math_abs (sub (toLbs unit targetWeight)
                              (Fin (Bar.weight bar))))
               (Fin (dec 1 100))); [now left|].
  right. rewrite JSON_copy_same. eexists.
  match goal with |- context [if ?c then _ else _] => destruct c end;
    cbn [fst snd plates]; split; reflexivity.
Qed.

Lemma numSidesOf_cases (calculationType : string) :
  numSidesOf "two-sided" = 2%Z /\
  (calculationType <> "two-sided"%string -> numSidesOf calculationType = 1%Z).
Proof.
  split; [reflexivity|]. intros H. unfold numSidesOf.
  destruct (String.eqb_spec calculationType "two-sided"); congruence.
Qed.

Lemma numSidesOf_pos (calculationType : string) :
  (0 < numSidesOf calculationType)%Z.
Proof. unfold numSidesOf. destruct (String.eqb _ _); lia. Qed.

Lemma fold_sum_from (l : list Plate.t) (start : Qc) :
  fold_left (fun sum p => sum + Plate.weight p) l start
  = start + total (map Plate.weight l).
Proof.
  revert start. unfold total.
  induction l as [|p l IH]; intros start; cbn [fold_left map fold_right].
  - ring.
  - rewrite IH. ring.
Qed.

Lemma sumWeights_total (l : list Plate.t) :
  sumWeights l = total (map Plate.weight l).
Proof. unfold sumWeights. rewrite fold_sum_from. ring. Qed.

(** ** Forward calculation *)

(** C2. Inventory respect: in an inventory whose plate types have distinct
    ids, a plate type owned in a non-negative quantity is referenced in the
    returned per-side loadout at most [floor(quantity / numSides)] times,
    [numSides] being 2 for ['two-sided'] and 1 otherwise. *)
Theorem inventory_respect (targetWeight : num) (bar : Bar.t)
    (calculationType : string) (inventory : list Plate.t) (unit : string)
    (p : Plate.t) :
  NoDup (map Plate.id inventory) ->
  In p inventory ->
  (0 <= Plate.quantity p)%Z ->
  (Z.of_nat
     (uses p (plates (fst (resolvePlates targetWeight bar calculationType
                                         inventory unit))))
   <= Plate.quantity p / numSidesOf calculationType)%Z.
Proof.
  intros Hnd Hin Hq.
  pose proof (numSidesOf_pos calculationType) as Hn.
  assert (Hcap : (0 <= Plate.quantity p / numSidesOf calculationType)%Z)
    by (apply Z.div_pos; assumption).
  destruct (resolvePlates_paths targetWeight bar calculationType inventory unit)
    as [[-> _]|(w & -> & _)].
  - cbn. exact Hcap.
  - pose proof (Array_sort_perm byWeightDesc inventory) as Hperm.
    assert (Hle : (uses p (fst (fillSide (Array_sort byWeightDesc inventory)
                                         (numSidesOf calculationType) w []))
                   <= Z.to_nat (Plate.quantity p / numSidesOf calculationType))%nat).
    { apply fillSide_uses.
      - eapply Permutation_NoDup; [|exact Hnd]. now apply Permutation_map.
      - intros plate Hplate Hid.
        apply (Permutation_in _ (Permutation_sym Hperm)) in Hplate.
        rewrite (NoDup_id_unique inventory plate p Hnd Hplate Hin Hid).
        apply Nat.le_refl. }
    lia.
Qed.

Lemma inventory_respect_witness :
  NoDup (map Plate.id gymPlates) /\
  In plate45 gymPlates /\
  (0 <= Plate.quantity plate45)%Z /\
  (Z.of_nat
     (uses plate45
        (plates (fst (resolvePlates (Fin (dec 140 1)) standardBar "two-sided"
                                    gymPlates "lbs"))))
   <= Plate.quantity plate45 / numSidesOf "two-sided")%Z.
Proof.
  assert (Hnd : NoDup (map Plate.id gymPlates)).
  { repeat constructor; cbn; intuition discriminate. }
  assert (Hin : In plate45 gymPlates) by (left; reflexivity).
  assert (Hq : (0 <= Plate.quantity plate45)%Z) by (cbn; lia).
  split; [exact Hnd|]. split; [exact Hin|]. split; [exact Hq|].
  exact (inventory_respect (Fin (dec 140 1)) standardBar "two-sided"
                           gymPlates "lbs" plate45 Hnd Hin Hq).
Defined.

(** C5. Sorted loadout: the per-side loadout returned by every call is
    non-increasing in plate weight, each plate at least as heavy as the
    next one. *)
Theorem loadout_heaviest_first (targetWeight : num) (bar : Bar.t)
    (calculationType : string) (inventory : list Plate.t) (unit : string) :
  Sorted heavierFirst
    (plates (fst (resolvePlates targetWeight bar calculationType
                                inventory unit))).
Proof.
  apply StronglySorted_Sorted.
  destruct (resolvePlates_paths targetWeight bar calculationType inventory unit)
    as [[-> _]|(w & -> & _)].
  - constructor.
  - apply fillSide_sorted, Array_sort_sorted.
Qed.

(** C4. Scenario: bar 45, inventory 45x4, 25x4, 10x4, 5x4, 2.5x4, target
    140, two-sided, in lbs: the per-side loadout is one 45 then one 2.5 and
    the message is the exact-match one, [Total: 140 lbs]. *)
Theorem scenario_140_two_sided :
  fst (resolvePlates (Fin (dec 140 1)) standardBar "two-sided" gymPlates "lbs")
  = mkResult [plate45; plate2_5] (MsgTotal (AsNumber (Fin (dec 140 1))) "lbs").
Proof. vm_compute. reflexivity. Qed.

(** C8. Determinism and idempotence: running the effect a second time on
    the same inputs, with the inventory array as the first run left it,
    gives the same result, message and loadout, and leaves the array as it
    was. *)
Theorem resolve_again_same (isLoading : bool) (selectedBarId : string)
    (bars : list Bar.t) (targetWeight : num) (calculationType : string)
    (inventory : list Plate.t) (unit : string) :
  calculatorEffect isLoading selectedBarId bars targetWeight calculationType
    (snd (calculatorEffect isLoading selectedBarId bars targetWeight
                           calculationType inventory unit))
    unit
  = calculatorEffect isLoading selectedBarId bars targetWeight calculationType
                     inventory unit.
Proof.
  unfold calculatorEffect.
  destruct (isLoading || String.eqb selectedBarId "")%bool; [reflexivity|].
  destruct (findBar bars selectedBarId) as [bar|]; [|reflexivity].
  unfold resolvePlates.
  destruct (isNaN (toLbs unit targetWeight)
            || lt (toLbs unit targetWeight) (Fin 0))%bool; [reflexivity|].
  destruct (lt (toLbs unit targetWeight) (Fin (Bar.weight bar)));
    [reflexivity|].
  destruct (lt (Math_abs (sub (toLbs unit targetWeight)
                              (Fin (Bar.weight bar))))
               (Fin (dec 1 100))); [reflexivity|].
  match goal with
  | |- context [snd (if ?c then _ else _)] => destruct c eqn:E
  end; cbn [snd]; rewrite Array_sort_idempotent, E; reflexivity.
Qed.

(** The inventory array after a call holds the plates it held before, in
    some order. *)
Lemma resolve_inventory_perm (targetWeight : num) (bar : Bar.t)
    (calculationType : string) (inventory : list Plate.t) (unit : string) :
  Permutation inventory
    (snd (resolvePlates targetWeight bar calculationType inventory unit)).
Proof.
  destruct (resolvePlates_paths targetWeight bar calculationType inventory unit)
    as [[_ ->]|(w & _ & ->)]; [reflexivity | apply Array_sort_perm].
Qed.

(** An inventory array that is already heaviest-first is left as it is. *)
Lemma resolve_sorted_inventory_untouched (targetWeight : num) (bar : Bar.t)
    (calculationType : string) (inventory : list Plate.t) (unit : string) :
  StronglySorted heavierFirst inventory ->
  snd (resolvePlates targetWeight bar calculationType inventory unit)
  = inventory.
Proof.
  intros Hsorted.
  destruct (resolvePlates_paths targetWeight bar calculationType inventory unit)
    as [[_ ->]|(w & _ & ->)]; [reflexivity | now apply Array_sort_fixed].
Qed.

(** C3. The call sorts the inventory array of the context in place: on the
    inventory 2.5x4, 45x4 (lightest first) with bar 45 and target 140 the
    array comes back as 45x4, 2.5x4. *)
Theorem resolve_reorders_inventory :
  snd (resolvePlates (Fin (dec 140 1)) standardBar "two-sided"
                     [plate2_5; plate45] "lbs")
  = [plate45; plate2_5]
  /\ snd (resolvePlates (Fin (dec 140 1)) standardBar "two-sided"
                        [plate2_5; plate45] "lbs")
     <> [plate2_5; plate45].
Proof.
  assert (H : snd (resolvePlates (Fin (dec 140 1)) standardBar "two-sided"
                                 [plate2_5; plate45] "lbs")
              = [plate45; plate2_5]) by (vm_compute; reflexivity).
  split; [exact H|]. rewrite H. intros E.
  apply (f_equal (map Plate.id)) in E. discriminate E.
Qed.

(** C7, as stated, fails for a bar lighter than one unit: with the
    bar-free entry (weight 0) the target one unit below the bar weight is
    negative and is answered as an invalid target. *)
Lemma below_bar_counterexample :
  lt (Fin (Bar.weight noBar - 1)) (Fin (Bar.weight noBar)) = true
  /\ fst (resolvePlates (Fin (Bar.weight noBar - 1)) noBar "two-sided"
                        gymPlates "lbs")
     = mkResult [] MsgInvalidTarget.
Proof. split; vm_compute; reflexivity. Qed.

(** [resolvePlates] is [resolveFromLbs] on the converted target. *)
Lemma resolvePlates_from_lbs (targetWeight : num) (bar : Bar.t)
    (calculationType : string) (inventory : list Plate.t) (unit : string) :
  resolvePlates targetWeight bar calculationType inventory unit
  = resolveFromLbs (toLbs unit targetWeight) bar calculationType inventory
                   unit.
Proof. reflexivity. Qed.

(** C7, amended. Boundary classification on the target in lbs, as the
    effect holds it after the conversion, for every bar, inventory and
    display unit: a negative target yields the invalid-target message with
    an empty loadout, whatever the bar; a target that is not negative and
    equal to the bar weight yields the bar-only message with an empty
    loadout; a target that is not negative and strictly below the bar weight
    yields the below-bar-weight message with an empty loadout; both
    messages carry the bar weight converted to the display unit. With a
    display unit other than ['kg'] the target in lbs is the parsed target
    itself. *)
Theorem boundary_classification (t : Qc) (bar : Bar.t)
    (calculationType : string) (inventory : list Plate.t) (unit : string) :
  (t < 0 ->
   fst (resolveFromLbs (Fin t) bar calculationType inventory unit)
   = mkResult [] MsgInvalidTarget)
  /\ (0 <= t -> t = Bar.weight bar ->
      fst (resolveFromLbs (Fin t) bar calculationType inventory unit)
      = mkResult []
          (MsgJustBar (convertWeight (Fin (Bar.weight bar)) unit "lbs") unit))
  /\ (0 <= t -> t < Bar.weight bar ->
      fst (resolveFromLbs (Fin t) bar calculationType inventory unit)
      = mkResult []
          (MsgBelowBar (convertWeight (Fin (Bar.weight bar)) unit "lbs")
                       unit))
  /\ (String.eqb unit "kg" = false ->
      resolvePlates (Fin t) bar calculationType inventory unit
      = resolveFromLbs (Fin t) bar calculationType inventory unit).
Proof.
  split; [|split; [|split]].
  - intros Hneg. apply Qcltb_true in Hneg. unfold resolveFromLbs.
    cbn [isNaN orb lt]. now rewrite Hneg.
  - intros Hpos ->. unfold resolveFromLbs.
    assert (Hneg : lt (Fin (Bar.weight bar)) (Fin 0) = false)
      by now apply Qcltb_false.
    assert (Hlt : lt (Fin (Bar.weight bar)) (Fin (Bar.weight bar)) = false)
      by (apply Qcltb_false, Qcle_refl).
    cbn [isNaN orb]. rewrite Hneg, Hlt. cbn [sub lift2 Math_abs].
    replace (Bar.weight bar - Bar.weight bar) with 0 by ring.
    reflexivity.
  - intros Hpos Hlt. unfold resolveFromLbs.
    assert (Hneg : lt (Fin t) (Fin 0) = false) by now apply Qcltb_false.
    apply Qcltb_true in Hlt. cbn [isNaN orb]. rewrite Hneg.
    cbn [lt]. now rewrite Hlt.
  - intros Hunit. rewrite resolvePlates_from_lbs. unfold toLbs.
    now rewrite Hunit.
Qed.

Lemma boundary_classification_witness :
  fst (resolveFromLbs (Fin (0 - 1)) noBar "two-sided" gymPlates "lbs")
  = mkResult [] MsgInvalidTarget
  /\ fst (resolveFromLbs (Fin (dec 45 1)) standardBar "two-sided" gymPlates
                         "kg")
     = mkResult []
         (MsgJustBar (convertWeight (Fin (Bar.weight standardBar)) "kg" "lbs")
                     "kg")
  /\ fst (resolveFromLbs (Fin (dec 44 1)) standardBar "two-sided" gymPlates
                         "lbs")
     = mkResult []
         (MsgBelowBar (convertWeight (Fin (Bar.weight standardBar)) "lbs"
                                     "lbs") "lbs")
  /\ resolvePlates (Fin (dec 44 1)) standardBar "two-sided" gymPlates "lbs"
     = resolveFromLbs (Fin (dec 44 1)) standardBar "two-sided" gymPlates
                      "lbs".
Proof.
  split; [|split; [|split]].
  - apply (proj1 (boundary_classification (0 - 1) noBar "two-sided"
                    gymPlates "lbs")).
    vm_compute. reflexivity.
  - apply (proj1 (proj2 (boundary_classification (dec 45 1) standardBar
                           "two-sided" gymPlates "kg"))).
    + vm_compute. discriminate.
    + reflexivity.
  - apply (proj1 (proj2 (proj2 (boundary_classification (dec 44 1)
                                  standardBar "two-sided" gymPlates "lbs")))).
    + vm_compute. discriminate.
    + vm_compute. reflexivity.
  - apply (proj2 (proj2 (proj2 (boundary_classification (dec 44 1)
                                  standardBar "two-sided" gymPlates "lbs")))).
    reflexivity.
Defined.

(** C1. Round trip: for a target that is not negative and at least the bar
    weight, the total the reverse calculation computes from the returned
    loadout, the same bar and the matching sidedness is the total the
    forward calculation reports: the bar weight of the bar-only message, or
    the loaded weight of the exact and closest messages, formatted by the
    same rule. *)
Theorem round_trip (selectedBarId : string) (bars : list Bar.t) (bar : Bar.t)
    (targetWeight : num) (t : Qc) (calculationType sidedness : string)
    (inventory : list Plate.t) (unit : string) :
  selectedBarId <> ""%string ->
  findBar bars selectedBarId = Some bar ->
  toLbs unit targetWeight = Fin t ->
  0 <= t ->
  Bar.weight bar <= t ->
  String.eqb calculationType "two-sided" = String.eqb sidedness "both-sides" ->
  let r := fst (calculatorEffect false selectedBarId bars targetWeight
                                 calculationType inventory unit) in
  let v := reverseEffect (plates r) selectedBarId bars unit sidedness in
  message r = MsgJustBar v unit
  \/ message r = MsgTotal (formatWeight v) unit
  \/ message r = MsgClosest (formatWeight v) unit.
Proof.
  intros Hsel Hbar Ht Hpos Hge Hside.
  unfold calculatorEffect, reverseEffect, totalWeightInLbs.
  apply String.eqb_neq in Hsel. rewrite Hsel, Hbar. cbn [orb option_map].
  rewrite or_zero_Some, <- Hside. fold (numSidesOf calculationType).
  unfold resolvePlates. rewrite Ht.
  assert (Hneg : lt (Fin t) (Fin 0) = false) by now apply Qcltb_false.
  assert (Hlt : lt (Fin t) (Fin (Bar.weight bar)) = false)
    by now apply Qcltb_false.
  cbn [isNaN orb]. rewrite Hneg, Hlt.
  destruct (lt (Math_abs (sub (Fin t) (Fin (Bar.weight bar))))
               (Fin (dec 1 100))).
  - left. cbn [fst plates message]. do 3 f_equal.
    unfold sumWeights. cbn [fold_left]. ring.
  - match goal with
    | |- context [if ?c then _ else _] => destruct c
    end; [right; right | right; left]; cbn [fst plates message];
      do 4 f_equal; apply Qcplus_comm.
Qed.

Lemma round_trip_witness :
  let r := fst (calculatorEffect false "std" gymBars (Fin (dec 140 1))
                                 "two-sided" gymPlates "lbs") in
  let v := reverseEffect (plates r) "std" gymBars "lbs" "both-sides" in
  message r = MsgJustBar v "lbs"
  \/ message r = MsgTotal (formatWeight v) "lbs"
  \/ message r = MsgClosest (formatWeight v) "lbs".
Proof.
  refine (round_trip "std" gymBars standardBar (Fin (dec 140 1)) (dec 140 1)
                     "two-sided" "both-sides" gymPlates "lbs"
                     _ eq_refl eq_refl _ _ eq_refl).
  - discriminate.
  - vm_compute. discriminate.
  - vm_compute. discriminate.
Defined.

(** ** Reverse calculation *)

(** C6. Reverse accumulator: with the selected bar found in the list, the
    total is the bar weight plus the sum of the plate weights of one side,
    taken twice for ['both-sides'] and once for ['one-side']. *)
Theorem reverse_total (selectedPlates : list Plate.t) (selectedBarId : string)
    (bars : list Bar.t) (bar : Bar.t) :
  findBar bars selectedBarId = Some bar ->
  totalWeightInLbs selectedPlates selectedBarId bars "both-sides"
  = Bar.weight bar + total (map Plate.weight selectedPlates) * ofZ 2
  /\ totalWeightInLbs selectedPlates selectedBarId bars "one-side"
     = Bar.weight bar + total (map Plate.weight selectedPlates) * ofZ 1.
Proof.
  intros Hbar. unfold totalWeightInLbs. rewrite Hbar. cbn [option_map].
  rewrite or_zero_Some, sumWeights_total. split; reflexivity.
Qed.

Lemma reverse_total_witness :
  totalWeightInLbs [plate45; plate2_5] "std" gymBars "both-sides"
  = Bar.weight standardBar
    + total (map Plate.weight [plate45; plate2_5]) * ofZ 2
  /\ totalWeightInLbs [plate45; plate2_5] "std" gymBars "one-side"
     = Bar.weight standardBar
       + total (map Plate.weight [plate45; plate2_5]) * ofZ 1.
Proof.
  exact (reverse_total [plate45; plate2_5] "std" gymBars standardBar eq_refl).
Defined.



(** ** Unit conversion *)

(** C9. [convertWeight] returns its input unchanged for every pair of
    units other than (['kg'], ['lbs']) and (['lbs'], ['kg']). *)
Theorem convertWeight_identity (weight : num) (unit baseUnit : string) :
  (unit, baseUnit) <> ("kg", "lbs")%string ->
  (unit, baseUnit) <> ("lbs", "kg")%string ->
  convertWeight weight unit baseUnit = weight.
Proof.
  intros H1 H2. unfold convertWeight.
  destruct (String.eqb_spec unit "kg") as [Ekg|_],
           (String.eqb_spec baseUnit "lbs") as [Elbs|_];
    cbn [andb]; [exfalso; apply H1; now rewrite Ekg, Elbs | | |];
    destruct (String.eqb_spec unit "lbs") as [Ul|_],
             (String.eqb_spec baseUnit "kg") as [Bk|_];
    cbn [andb]; try reflexivity;
    exfalso; apply H2; now rewrite Ul, Bk.
Qed.

Lemma convertWeight_identity_witness :
  convertWeight (Fin (dec 45 1)) "lbs" "lbs" = Fin (dec 45 1)
  /\ convertWeight (Fin (dec 20 1)) "kg" "kg" = Fin (dec 20 1)
  /\ convertWeight NaN "stone" "lbs" = NaN.
Proof.
  split; [|split].
  - apply (convertWeight_identity (Fin (dec 45 1)) "lbs" "lbs"); discriminate.
  - apply (convertWeight_identity (Fin (dec 20 1)) "kg" "kg"); discriminate.
  - apply (convertWeight_identity NaN "stone" "lbs"); discriminate.
Defined.

(** ** Worked examples *)

Example scenario_135_two_sided :
  fst (resolvePlates (Fin (dec 135 1)) standardBar "two-sided" gymPlates "lbs")
  = mkResult [plate45] (MsgTotal (AsNumber (Fin (dec 135 1))) "lbs").
Proof. vm_compute. reflexivity. Qed.

Example scenario_46_closest :
  fst (resolvePlates (Fin (dec 46 1)) standardBar "two-sided" gymPlates "lbs")
  = mkResult [] (MsgClosest (AsNumber (Fin (dec 45 1))) "lbs").
Proof. vm_compute. reflexivity. Qed.

Example scenario_no_bar_one_sided :
  fst (resolvePlates (Fin (dec 25 1)) noBar "one-sided"
                     [Plate.mk "only" (dec 25 1) 1 "#3B82F6"] "lbs")
  = mkResult [Plate.mk "only" (dec 25 1) 1 "#3B82F6"]
             (MsgTotal (AsNumber (Fin (dec 25 1))) "lbs").
Proof. vm_compute. reflexivity. Qed.

Example scenario_single_plate_two_sided :
  plates (fst (resolvePlates (Fin (dec 65 1)) standardBar "two-sided"
                             [Plate.mk "only" (dec 10 1) 1 "#FBBF24"] "lbs"))
  = [].
Proof. vm_compute. reflexivity. Qed.

Example target_not_a_number :
  fst (resolvePlates NaN standardBar "two-sided" gymPlates "lbs")
  = mkResult [] MsgInvalidTarget.
Proof. reflexivity. Qed.

Example roundToDecimal_half_up :
  roundToDecimal (Fin (dec 10005 10000)) 3 = Fin (dec 1001 1000).
Proof. vm_compute. reflexivity. Qed.

Example roundToDecimal_exponent_string :
  roundToDecimal (Fin (dec 5 10000000)) 3 = NaN.
Proof. vm_compute. reflexivity. Qed.

(** * More of the application *)

(** ** Linear arithmetic on [Qc] *)

Lemma this_Q2Qc (q : Q) : (this (Q2Qc q) == q)%Q.
Proof. unfold Q2Qc. cbn [this]. apply Qred_correct. Qed.

Ltac qc_to_q :=
  unfold Qcle, Qclt, Qcdiv, Qcminus, Qcplus, Qcmult, Qcopp, Qcinv, dec, ofZ in *;
  repeat match goal with
  | H : context [this (Q2Qc ?q)] |- _ => rewrite (this_Q2Qc q) in H
  | |- context [this (Q2Qc ?q)] => rewrite (this_Q2Qc q)
  end;
  repeat match goal with
  | |- context [Qinv ?c] =>
      let v := eval vm_compute in (Qinv c) in
      setoid_replace (Qinv c) with v by reflexivity
  | H : context [Qinv ?c] |- _ =>
      let v := eval vm_compute in (Qinv c) in
      setoid_replace (Qinv c) with v in H by reflexivity
  end.

Ltac qc_lra := qc_to_q; lra.

(** ** Sorting with any comparator that orders by a relation *)

Section SortBy.
Context {A : Type} (cmp : A -> A -> Qc) (R : A -> A -> Prop).
Hypothesis R_trans : forall a b c, R a b -> R b c -> R a c.
Hypothesis cmp_keeps : forall a b, Qcltb 0 (cmp a b) = false <-> R a b.
Hypothesis cmp_swaps : forall a b, Qcltb 0 (cmp a b) = true -> R b a.

Lemma sort_insert_sorted_by (a : A) (l : list A) :
  StronglySorted R l -> StronglySorted R (sort_insert cmp a l).
Proof.
  induction 1 as [|b l Hl IH Hb]; cbn [sort_insert].
  - repeat constructor.
  - destruct (Qcltb 0 (cmp a b)) eqn:E.
    + constructor; [exact IH|].
      rewrite <- sort_insert_perm. constructor; [|exact Hb].
      now apply cmp_swaps.
    + apply cmp_keeps in E.
      constructor; [now constructor|]. constructor; [exact E|].
      eapply Forall_impl; [|exact Hb]. intros c Hc. now apply R_trans with b.
Qed.

Lemma Array_sort_sorted_by (l : list A) : StronglySorted R (Array_sort cmp l).
Proof.
  induction l as [|a l IH]; cbn [Array_sort]; [constructor|].
  now apply sort_insert_sorted_by.
Qed.

Lemma sort_insert_front (a : A) (l : list A) :
  Forall (R a) l -> sort_insert cmp a l = a :: l.
Proof.
  intros Ha. destruct l as [|b l]; [reflexivity|]. cbn [sort_insert].
  inversion Ha as [|? ? Hab _]; subst.
  apply cmp_keeps in Hab. now rewrite Hab.
Qed.

Lemma Array_sort_fixed_by (l : list A) :
  StronglySorted R l -> Array_sort cmp l = l.
Proof.
  induction 1 as [|a l Hl IH Ha]; cbn [Array_sort]; [reflexivity|].
  rewrite IH. now apply sort_insert_front.
Qed.

(** Appending to a sorted array and sorting again puts the new element
    somewhere and moves nothing else. *)
Lemma Array_sort_snoc (l : list A) (x : A) :
  StronglySorted R l ->
  exists l1 l2, l = l1 ++ l2 /\ Array_sort cmp (l ++ [x]) = l1 ++ x :: l2.
Proof.
  induction 1 as [|a l Hl IH Ha].
  - exists [], []. split; reflexivity.
  - destruct IH as (l1 & l2 & Hsplit & Hsort).
    cbn [app Array_sort]. rewrite Hsort.
    destruct l1 as [|b l1].
    + cbn [app] in *. subst l2. cbn [sort_insert].
      destruct (Qcltb 0 (cmp a x)) eqn:E.
      * exists [], (a :: l). split; [reflexivity|].
        cbn [app]. now rewrite sort_insert_front.
      * exists (a :: nil), l. split; reflexivity.
    + exists (a :: b :: l1), l2. split; [now rewrite Hsplit|].
      cbn [app sort_insert].
      assert (Hab : R a b).
      { rewrite Hsplit in Ha. now inversion Ha. }
      apply cmp_keeps in Hab. now rewrite Hab.
Qed.

End SortBy.

Section ItemOrder.
Context {A : Type} {ItemA : Item A}.

Lemma heavierItem_trans (a b c : A) :
  heavierItem a b -> heavierItem b c -> heavierItem a c.
Proof. unfold heavierItem. intros H1 H2. now apply Qcle_trans with (weightOf b). Qed.

Lemma compareWeightDesc_keeps (a b : A) :
  Qcltb 0 (compareWeightDesc a b) = false <-> heavierItem a b.
Proof.
  rewrite Qcltb_false. unfold compareWeightDesc, heavierItem.
  split; intros H; qc_lra.
Qed.

Lemma compareWeightDesc_swaps (a b : A) :
  Qcltb 0 (compareWeightDesc a b) = true -> heavierItem b a.
Proof.
  rewrite Qcltb_true. unfold compareWeightDesc, heavierItem.
  intros H; qc_lra.
Qed.

Lemma sorted_items (l : list A) :
  StronglySorted heavierItem (Array_sort compareWeightDesc l).
Proof.
  apply Array_sort_sorted_by;
    [exact heavierItem_trans | exact compareWeightDesc_keeps
     | exact compareWeightDesc_swaps].
Qed.

Lemma sorted_items_fixed (l : list A) :
  StronglySorted heavierItem l -> Array_sort compareWeightDesc l = l.
Proof.
  apply Array_sort_fixed_by; [exact compareWeightDesc_keeps].
Qed.

Lemma filter_sorted (R : A -> A -> Prop) (f : A -> bool) (l : list A) :
  StronglySorted R l -> StronglySorted R (filter f l).
Proof.
  induction 1 as [|a l Hl IH Ha]; cbn [filter]; [constructor|].
  destruct (f a); [|exact IH]. constructor; [exact IH|].
  apply Forall_forall. intros x Hx. apply filter_In in Hx as [Hx _].
  revert x Hx. now apply Forall_forall.
Qed.

Lemma addItem_perm (prev : list A) (itemData : data) (newId : string) :
  Permutation (withId itemData newId :: prev) (addItem prev itemData newId).
Proof.
  unfold addItem. rewrite <- Array_sort_perm. apply Permutation_cons_append.
Qed.

Lemma updateItem_ids (prev : list A) (id : string) (itemData : data) :
  Permutation (map idOf prev) (map idOf (updateItem prev id itemData)).
Proof.
  unfold updateItem.
  set (f := fun item : A =>
              if String.eqb (idOf item) id then spread item itemData else item).
  assert (Hids : map idOf (map f prev) = map idOf prev).
  { rewrite map_map. apply map_ext. intros a. unfold f.
    destruct (String.eqb (idOf a) id); [apply idOf_spread | reflexivity]. }
  rewrite <- Hids. apply Permutation_map, Array_sort_perm.
Qed.

(** X1. [addItem] returns the old items and the new one, nothing else,
    the heaviest first. *)
Theorem addItem_sorted_with_new (prev : list A) (itemData : data)
    (newId : string) :
  StronglySorted heavierItem (addItem prev itemData newId)
  /\ Permutation (withId itemData newId :: prev) (addItem prev itemData newId).
Proof.
  split; [apply sorted_items | apply addItem_perm].
Qed.

(** X2. [updateItem] returns as many items as before with the same ids,
    the heaviest first. *)
Theorem updateItem_sorted_same_ids (prev : list A) (id : string)
    (itemData : data) :
  StronglySorted heavierItem (updateItem prev id itemData)
  /\ Permutation (map idOf prev) (map idOf (updateItem prev id itemData))
  /\ List.length (updateItem prev id itemData) = List.length prev.
Proof.
  split; [apply sorted_items|]. split; [apply updateItem_ids|].
  rewrite <- (length_map idOf (updateItem prev id itemData)).
  rewrite <- (Permutation_length (updateItem_ids prev id itemData)).
  apply length_map.
Qed.

(** X3. After [updateItem] every item with the given id is an old item of
    that id overwritten with the new data, and every other item is an old
    item as it was. *)
Theorem updateItem_contents (prev : list A) (id : string) (itemData : data)
    (x : A) :
  In x (updateItem prev id itemData) ->
  (exists old, In old prev /\ idOf old = id /\ x = spread old itemData)
  \/ (idOf x <> id /\ In x prev).
Proof.
  unfold updateItem. intros Hx.
  apply (Permutation_in _ (Permutation_sym (Array_sort_perm _ _))) in Hx.
  apply in_map_iff in Hx as (old & Hold & Hin).
  destruct (String.eqb_spec (idOf old) id) as [E|E].
  - left. exists old. now repeat split.
  - right. subst x. now split.
Qed.

(** X4. [updateItem] with an id that no item has changes no item, and
    returns a list that was already heaviest-first as it is. *)
Theorem updateItem_unknown_id (prev : list A) (id : string) (itemData : data) :
  ~ In id (map idOf prev) ->
  Permutation prev (updateItem prev id itemData)
  /\ (StronglySorted heavierItem prev -> updateItem prev id itemData = prev).
Proof.
  intros Hid. unfold updateItem.
  assert (Hsame : map (fun item : A =>
                         if String.eqb (idOf item) id
                         then spread item itemData else item) prev = prev).
  { rewrite <- (map_id prev) at 2. apply map_ext_in. intros a Ha.
    destruct (String.eqb_spec (idOf a) id) as [E|E]; [|reflexivity].
    exfalso. apply Hid. rewrite <- E. now apply in_map. }
  rewrite Hsame. split; [apply Array_sort_perm | apply sorted_items_fixed].
Qed.

(** X5. [deleteItem] drops every item of the given id and keeps every
    other item; a list that was heaviest-first stays so. *)
Theorem deleteItem_contents (prev : list A) (id : string) :
  (forall x, In x (deleteItem prev id) <-> In x prev /\ idOf x <> id)
  /\ ~ In id (map idOf (deleteItem prev id))
  /\ (StronglySorted heavierItem prev ->
      StronglySorted heavierItem (deleteItem prev id)).
Proof.
  unfold deleteItem.
  assert (Hin : forall x,
             In x (filter (fun item => negb (String.eqb (idOf item) id)) prev)
             <-> In x prev /\ idOf x <> id).
  { intros x. rewrite filter_In.
    destruct (String.eqb_spec (idOf x) id); cbn; intuition congruence. }
  split; [exact Hin|]. split; [|apply filter_sorted].
  intros H. apply in_map_iff in H as (x & Hx & Hxin).
  apply Hin in Hxin. tauto.
Qed.

(** X6. [deleteItem] with an id that no item has returns the list as it
    is. *)
Theorem deleteItem_unknown_id (prev : list A) (id : string) :
  ~ In id (map idOf prev) -> deleteItem prev id = prev.
Proof.
  intros Hid. unfold deleteItem.
  induction prev as [|a l IH]; cbn [filter]; [reflexivity|].
  destruct (String.eqb_spec (idOf a) id) as [E|E]; cbn [negb].
  - exfalso. apply Hid. left. exact E.
  - f_equal. apply IH. intros H. apply Hid. now right.
Qed.

(** X7. Ids stay distinct: [addItem] with an id no item has,
    [updateItem] and [deleteItem] all keep the ids of the list free of
    duplicates. *)
Theorem ids_stay_distinct (prev : list A) :
  NoDup (map idOf prev) ->
  (forall itemData newId,
      ~ In newId (map idOf prev) ->
      NoDup (map idOf (addItem prev itemData newId)))
  /\ (forall id itemData, NoDup (map idOf (updateItem prev id itemData)))
  /\ (forall id, NoDup (map idOf (deleteItem prev id))).
Proof.
  intros Hnd. repeat split.
  - intros itemData newId Hfresh.
    eapply Permutation_NoDup;
      [apply Permutation_map, addItem_perm|].
    cbn [map]. rewrite idOf_withId. now constructor.
  - intros id itemData.
    eapply Permutation_NoDup; [|exact Hnd].
    apply updateItem_ids.
  - intros id. unfold deleteItem.
    induction prev as [|a l IH]; cbn [filter map]; [constructor|].
    cbn [map] in Hnd. apply NoDup_cons_iff in Hnd as [Ha Hl].
    destruct (negb (String.eqb (idOf a) id)); [|now apply IH].
    cbn [map]. constructor; [|now apply IH].
    intros H. apply Ha. apply in_map_iff in H as (x & Hx & Hxin).
    apply filter_In in Hxin as [Hxin _]. rewrite <- Hx. now apply in_map.
Qed.

End ItemOrder.

(** ** The plates of the inventory context stay heaviest-first *)

Lemma defaultPlates_sorted (id1 id2 id3 id4 id5 : string) :
  StronglySorted heavierFirst (defaultPlates id1 id2 id3 id4 id5).
Proof.
  unfold defaultPlates.
  repeat (constructor; [|repeat constructor; vm_compute; discriminate]).
  constructor.
Qed.

Lemma reachablePlates_sorted (inventory : list Plate.t) :
  reachablePlates inventory -> StronglySorted heavierFirst inventory.
Proof.
  induction 1 as [| | prev d i _ _ | prev i d _ _ | prev i _ IH
                  | prev t bar ct u _ IH].
  - constructor.
  - apply defaultPlates_sorted.
  - exact (sorted_items (A:=Plate.t) _).
  - exact (sorted_items (A:=Plate.t) _).
  - exact (filter_sorted heavierFirst _ prev IH).
  - destruct (resolvePlates_paths t bar ct prev u) as [[_ ->]|(w & _ & ->)];
      [exact IH | apply Array_sort_sorted].
Qed.

(** X8. Whatever the three inventory functions and earlier runs made of
    the seed inventory, a run of the calculator effect leaves the [plates]
    array of the context exactly as it found it. *)
Theorem reachable_inventory_untouched (inventory : list Plate.t)
    (isLoading : bool) (selectedBarId : string) (bars : list Bar.t)
    (targetWeight : num) (calculationType unit : string) :
  reachablePlates inventory ->
  snd (calculatorEffect isLoading selectedBarId bars targetWeight
                        calculationType inventory unit)
  = inventory.
Proof.
  intros Hreach. apply reachablePlates_sorted in Hreach.
  unfold calculatorEffect.
  destruct (isLoading || String.eqb selectedBarId "")%bool; [reflexivity|].
  destruct (findBar bars selectedBarId) as [bar|]; [|reflexivity].
  destruct (resolvePlates_paths targetWeight bar calculationType inventory unit)
    as [[_ ->]|(w & _ & ->)]; [reflexivity | now apply Array_sort_fixed].
Qed.

Lemma reachable_inventory_untouched_witness :
  let inventory :=
    addItem (defaultPlates "a" "b" "c" "d" "e")
            (PlateData.mk (dec 35 1) 2 "#000000") "f" in
  snd (calculatorEffect false "std" gymBars (Fin (dec 140 1)) "two-sided"
                        inventory "lbs")
  = inventory.
Proof.
  exact (reachable_inventory_untouched _ false "std" gymBars
           (Fin (dec 140 1)) "two-sided" "lbs"
           (reach_add _ (PlateData.mk (dec 35 1) 2 "#000000") "f"
                      (reach_default "a" "b" "c" "d" "e"))).
Defined.

Lemma updateItem_unknown_id_witness :
  Permutation gymPlates
    (updateItem gymPlates "gone" (PlateData.mk (dec 35 1) 2 "#000000"))
  /\ (StronglySorted heavierItem gymPlates ->
      updateItem gymPlates "gone" (PlateData.mk (dec 35 1) 2 "#000000")
      = gymPlates).
Proof.
  apply (updateItem_unknown_id gymPlates "gone").
  cbn. intuition discriminate.
Defined.

Lemma updateItem_contents_witness :
  (exists old : Plate.t,
      In old gymPlates /\ idOf old = "p45"%string
      /\ Plate.mk "p45" (dec 35 1) 2 "#000000"
         = spread (Item:=PlateItem) old (PlateData.mk (dec 35 1) 2 "#000000"))
  \/ (idOf (Plate.mk "p45" (dec 35 1) 2 "#000000") <> "p45"%string
      /\ In (Plate.mk "p45" (dec 35 1) 2 "#000000") gymPlates).
Proof.
  apply (updateItem_contents (ItemA:=PlateItem) gymPlates "p45"
           (PlateData.mk (dec 35 1) 2 "#000000")
           (Plate.mk "p45" (dec 35 1) 2 "#000000")).
  vm_compute. left. reflexivity.
Defined.

Lemma deleteItem_unknown_id_witness : deleteItem gymPlates "gone" = gymPlates.
Proof.
  apply (deleteItem_unknown_id gymPlates "gone").
  cbn. intuition discriminate.
Defined.

Lemma ids_stay_distinct_witness :
  (forall itemData newId,
      ~ In newId (map idOf gymPlates) ->
      NoDup (map idOf (addItem gymPlates itemData newId)))
  /\ (forall id itemData, NoDup (map idOf (updateItem gymPlates id itemData)))
  /\ (forall id, NoDup (map idOf (deleteItem gymPlates id))).
Proof.
  apply (ids_stay_distinct gymPlates).
  repeat constructor; cbn; intuition discriminate.
Defined.

(** ** Bars: the default, the selected and the deleted one *)

Lemma findBar_unique (bars : list Bar.t) (b : Bar.t) :
  In b bars ->
  (forall b', In b' bars -> Bar.id b' = Bar.id b -> b' = b) ->
  findBar bars (Bar.id b) = Some b.
Proof.
  unfold findBar. induction bars as [|a l IH]; intros Hin Huniq;
    [contradiction|].
  cbn [find]. destruct (String.eqb_spec (Bar.id a) (Bar.id b)) as [E|E].
  - f_equal. apply Huniq; [now left | exact E].
  - destruct Hin as [->|Hin]; [congruence|].
    apply IH; [exact Hin|]. intros b' Hb'. apply Huniq. now right.
Qed.

Lemma NoDup_bar_unique (bars : list Bar.t) (b b' : Bar.t) :
  NoDup (map Bar.id bars) -> In b bars -> In b' bars ->
  Bar.id b' = Bar.id b -> b' = b.
Proof.
  induction bars as [|a l IH]; intros Hnd Hb Hb' Hid; [contradiction|].
  cbn [map] in Hnd. apply NoDup_cons_iff in Hnd as [Hfresh Hnd].
  destruct Hb as [->|Hb], Hb' as [->|Hb']; try reflexivity.
  - exfalso. apply Hfresh. rewrite <- Hid. now apply in_map.
  - exfalso. apply Hfresh. rewrite Hid. now apply in_map.
  - now apply IH.
Qed.

Lemma defaultBar_In (bars : list Bar.t) :
  bars <> [] -> exists b, defaultBar bars = Some b /\ In b bars.
Proof.
  intros Hne. unfold defaultBar.
  destruct (find _ bars) as [b|] eqn:E.
  - exists b. split; [reflexivity|]. now apply find_some in E.
  - destruct bars as [|a l]; [congruence|]. exists a. split; [reflexivity|].
    now left.
Qed.

Lemma find_first {A : Type} (f : A -> bool) (l : list A) (b : A) :
  find f l = Some b ->
  exists before after,
    l = before ++ b :: after /\ f b = true
    /\ forall x, In x before -> f x = false.
Proof.
  induction l as [|a l IH]; cbn [find]; [discriminate|].
  destruct (f a) eqn:E.
  - intros Hb. injection Hb as <-. exists nil, l.
    split; [reflexivity|]. split; [exact E|]. intros x [].
  - intros Hb. destruct (IH Hb) as (before & after & -> & Hfb & Hnone).
    exists (a :: before), after. split; [reflexivity|]. split; [exact Hfb|].
    intros x [<-|Hx]; [exact E | now apply Hnone].
Qed.

Lemma Qc_eq_bool_false (x y : Qc) : Qc_eq_bool x y = false -> x <> y.
Proof.
  unfold Qc_eq_bool. destruct (Qc_eq_dec x y); [discriminate | trivial].
Qed.

Lemma Qc_eq_bool_refl (x : Qc) : Qc_eq_bool x x = true.
Proof.
  unfold Qc_eq_bool. destruct (Qc_eq_dec x x); [reflexivity | congruence].
Qed.

(** X9. The default bar of a list that is not empty is a bar of the list:
    the first one that weighs 45, no bar before it in the list weighing 45,
    when there is one, and the first bar of the list when no bar weighs
    45. *)
Theorem defaultBar_choice (bars : list Bar.t) :
  bars <> [] ->
  exists b,
    defaultBar bars = Some b /\ In b bars
    /\ ((exists before after,
            bars = before ++ b :: after
            /\ Bar.weight b = dec 45 1
            /\ forall b', In b' before -> Bar.weight b' <> dec 45 1)
        \/ ((forall b', In b' bars -> Bar.weight b' <> dec 45 1)
            /\ hd_error bars = Some b)).
Proof.
  intros Hne. destruct (defaultBar_In bars Hne) as (b & Hb & Hin).
  exists b. split; [exact Hb|]. split; [exact Hin|].
  unfold defaultBar in Hb.
  destruct (find (fun b0 => Qc_eq_bool (Bar.weight b0) (dec 45 1)) bars)
    as [b0|] eqn:E.
  - injection Hb as <-. left.
    destruct (find_first _ _ _ E) as (before & after & Hsplit & Hw & Hnone).
    exists before, after. split; [exact Hsplit|].
    split; [now apply Qc_eq_bool_correct|].
    intros b' Hb'. apply Qc_eq_bool_false. now apply Hnone.
  - right. split.
    + intros b' Hb'. apply Qc_eq_bool_false.
      exact (find_none _ _ E b' Hb').
    + destruct bars; [congruence|]. exact Hb.
Qed.

Lemma defaultBar_choice_witness :
  exists b,
    defaultBar (defaultBars "x" "y" "z") = Some b
    /\ In b (defaultBars "x" "y" "z")
    /\ ((exists before after,
            defaultBars "x" "y" "z" = before ++ b :: after
            /\ Bar.weight b = dec 45 1
            /\ forall b', In b' before -> Bar.weight b' <> dec 45 1)
        \/ ((forall b', In b' (defaultBars "x" "y" "z") ->
                        Bar.weight b' <> dec 45 1)
            /\ hd_error (defaultBars "x" "y" "z") = Some b)).
Proof.
  apply (defaultBar_choice (defaultBars "x" "y" "z")). discriminate.
Defined.

(** The first of two bars of 45 is the default, the second is not. *)
Example defaultBar_first_of_two :
  defaultBar [Bar.mk "light" "Light" (dec 10 1);
              Bar.mk "a" "First" (dec 45 1);
              Bar.mk "b" "Second" (dec 45 1)]
  = Some (Bar.mk "a" "First" (dec 45 1)).
Proof. reflexivity. Qed.

(** X10. With no bar selected yet, bars of distinct non-empty ids and the
    inventory loaded, the bar-selecting effect followed by the calculator
    effect computes the plates for the default bar. *)
Theorem default_bar_is_resolved (bars : list Bar.t) (targetWeight : num)
    (calculationType : string) (inventory : list Plate.t) (unit : string) :
  bars <> [] ->
  NoDup (map Bar.id bars) ->
  ~ In ""%string (map Bar.id bars) ->
  exists b,
    defaultBar bars = Some b
    /\ calculatorEffect false (selectDefaultBar bars "") bars targetWeight
                        calculationType inventory unit
       = resolvePlates targetWeight b calculationType inventory unit.
Proof.
  intros Hne Hnd Hids. destruct (defaultBar_In bars Hne) as (b & Hb & Hin).
  exists b. split; [exact Hb|].
  unfold selectDefaultBar. rewrite Hb.
  assert (Hlen : Nat.ltb 0 (List.length bars) = true).
  { destruct bars; [congruence | reflexivity]. }
  rewrite Hlen. cbn [andb String.eqb].
  unfold calculatorEffect. cbn [orb].
  assert (Hid : String.eqb (Bar.id b) "" = false).
  { apply String.eqb_neq. intros E. apply Hids. rewrite <- E.
    now apply in_map. }
  rewrite Hid, findBar_unique; [reflexivity | exact Hin |].
  intros b' Hb'. now apply NoDup_bar_unique with bars.
Qed.

Lemma default_bar_is_resolved_witness :
  exists b,
    defaultBar gymBars = Some b
    /\ calculatorEffect false (selectDefaultBar gymBars "") gymBars
                        (Fin (dec 140 1)) "two-sided" gymPlates "lbs"
       = resolvePlates (Fin (dec 140 1)) b "two-sided" gymPlates "lbs".
Proof.
  apply (default_bar_is_resolved gymBars (Fin (dec 140 1)) "two-sided"
                                 gymPlates "lbs").
  - discriminate.
  - repeat constructor; cbn; intuition discriminate.
  - cbn. intuition discriminate.
Defined.

(** X11. Once the selected bar is deleted from the inventory the
    calculator answers 'Please select a bar.' with no plates, and leaves the
    plates of the inventory alone. *)
Theorem deleted_bar_must_be_reselected (bars : list Bar.t)
    (selectedBarId : string) (targetWeight : num) (calculationType : string)
    (inventory : list Plate.t) (unit : string) :
  selectedBarId <> ""%string ->
  calculatorEffect false selectedBarId (deleteItem bars selectedBarId)
                   targetWeight calculationType inventory unit
  = (mkResult [] MsgSelectBar, inventory).
Proof.
  intros Hsel. unfold calculatorEffect.
  apply String.eqb_neq in Hsel. rewrite Hsel. cbn [orb].
  assert (Hnone : findBar (deleteItem bars selectedBarId) selectedBarId = None).
  { unfold findBar.
    destruct (find _ (deleteItem bars selectedBarId)) as [b|] eqn:E;
      [|reflexivity].
    apply find_some in E as [Hin Hid]. unfold deleteItem in Hin.
    apply filter_In in Hin as [_ Hkeep].
    change (idOf b) with (Bar.id b) in Hkeep. rewrite Hid in Hkeep.
    discriminate Hkeep. }
  now rewrite Hnone.
Qed.

Lemma deleted_bar_must_be_reselected_witness :
  calculatorEffect false "std" (deleteItem gymBars "std")
                   (Fin (dec 140 1)) "two-sided" gymPlates "lbs"
  = (mkResult [] MsgSelectBar, gymPlates).
Proof.
  apply (deleted_bar_must_be_reselected gymBars "std"). discriminate.
Defined.

(** X12. A bar added under an id that no bar of the list has is the bar
    found under that id afterwards. *)
Theorem added_bar_is_found (bars : list Bar.t) (itemData : BarData.t)
    (newId : string) :
  ~ In newId (map Bar.id bars) ->
  findBar (addItem bars itemData newId) newId
  = Some (Bar.mk newId (BarData.name itemData) (BarData.weight itemData)).
Proof.
  intros Hfresh.
  pose proof (addItem_perm bars itemData newId) as Hperm.
  apply (findBar_unique (addItem (ItemA:=BarItem) bars itemData newId)
           (Bar.mk newId (BarData.name itemData) (BarData.weight itemData))).
  - apply (Permutation_in _ Hperm). now left.
  - intros b' Hb' Hid.
    apply (Permutation_in _ (Permutation_sym Hperm)) in Hb'.
    destruct Hb' as [<-|Hb']; [reflexivity|].
    exfalso. apply Hfresh. cbn in Hid. rewrite <- Hid. now apply in_map.
Qed.

Lemma added_bar_is_found_witness :
  findBar (addItem gymBars (BarData.mk "Trap Bar" (dec 60 1)) "trap") "trap"
  = Some (Bar.mk "trap" "Trap Bar" (dec 60 1)).
Proof.
  apply (added_bar_is_found gymBars (BarData.mk "Trap Bar" (dec 60 1)) "trap").
  cbn. intuition discriminate.
Defined.

(** ** The step buttons *)




(** ** [roundToDecimal] and the loop *)

Lemma plain_decimal_false (x : Qc) :
  (x <> 0 /\ Qcabs x < dec 1 1000000) \/ ofZ (10 ^ 21) <= Qcabs x ->
  plain_decimal x = false.
Proof.
  intros [[Hx Hsmall]|Hbig]; unfold plain_decimal.
  - assert (E0 : Qc_eq_bool x 0 = false).
    { destruct (Qc_eq_bool x 0) eqn:E; [|reflexivity].
      apply Qc_eq_bool_correct in E. contradiction. }
    rewrite E0. apply Qcleb_false in Hsmall. now rewrite Hsmall.
  - assert (E0 : Qc_eq_bool x 0 = false).
    { destruct (Qc_eq_bool x 0) eqn:E; [|reflexivity].
      apply Qc_eq_bool_correct in E. subst x. exfalso.
      revert Hbig. vm_compute. intros H. now apply H. }
    rewrite E0. apply Qcltb_false in Hbig. rewrite Hbig.
    now rewrite andb_false_r.
Qed.



Lemma roundToDecimal_tiny_aux (q : Qc) (decimals : nat) :
  0 < q -> q < dec 1 1000000 -> roundToDecimal (Fin q) decimals = NaN.
Proof.
  intros H0 H1. unfold roundToDecimal, with_exponent at 2.
  rewrite plain_decimal_false; [reflexivity|]. left. split.
  - intros E. subst q. exact (Qclt_not_eq _ _ H0 eq_refl).
  - rewrite Qcabs_pos; [exact H1 | now apply Qclt_le_weak].
Qed.

Lemma fillSide_NaN (available : list Plate.t) (numSides : Z) :
  forall acc : list Plate.t,
    fillSide available numSides NaN acc = (acc, NaN).
Proof.
  induction available as [|plate rest IH]; intros acc; cbn [fillSide];
    [reflexivity|].
  destruct (Qcleb (Plate.weight plate) 0); [apply IH|].
  cbn. unfold push_times. cbn [repeat]. rewrite app_nil_r. apply IH.
Qed.

Lemma Qc_quotient_bounds (w c b : Qc) :
  0 < c -> 0 < w -> w < b * c -> 0 < w / c /\ w / c < b.
Proof.
  intros Hc Hw Hb.
  unfold Qclt, Qcdiv, Qcmult, Qcinv in *.
  rewrite !this_Q2Qc in *. change (this 0) with 0%Q in *.
  split.
  - apply Qlt_shift_div_l; [exact Hc|]. now rewrite Qmult_0_l.
  - now apply Qlt_shift_div_r.
Qed.

(** X15. A plate more than ten million times heavier than the weight
    still to load, that weight being at least 0.001, ends the loop: neither
    it nor any lighter plate behind it is added, and the weight left to load
    is [NaN]. The quotient of the two weights is below 1e-7, so its string
    has an exponent part also after rounding to a double. *)
Theorem heavy_plate_stops_loop (plate : Plate.t) (rest : list Plate.t)
    (numSides : Z) (w : Qc) (platesForSide : list Plate.t) :
  dec 1 1000 <= w ->
  w < dec 1 10000000 * Plate.weight plate ->
  fillSide (plate :: rest) numSides (Fin w) platesForSide
  = (platesForSide, NaN).
Proof.
  intros Hfloor Hmargin.
  assert (Hw : 0 < w) by qc_lra.
  assert (Hpos : 0 < Plate.weight plate) by qc_lra.
  assert (Hheavy : w < dec 1 1000000 * Plate.weight plate) by qc_lra.
  destruct (Qc_quotient_bounds w (Plate.weight plate) (dec 1 1000000)
                               Hpos Hw Hheavy) as [Hq0 Hq1].
  cbn [fillSide]. apply Qcleb_false in Hpos. rewrite Hpos.
  cbn [div lift2].
  rewrite roundToDecimal_tiny_aux; [|exact Hq0|exact Hq1].
  cbn [add lift2 Math_floor Math_min iterations mul sub].
  unfold push_times. cbn [repeat]. rewrite app_nil_r.
  change (roundToDecimal NaN 3) with NaN. apply fillSide_NaN.
Qed.

Lemma heavy_plate_stops_loop_witness :
  fillSide [Plate.mk "huge" (dec 100000 1) 2 "#000000"; plate2_5] 2
           (Fin (dec 5 1000)) []
  = ([], NaN).
Proof.
  apply (heavy_plate_stops_loop (Plate.mk "huge" (dec 100000 1) 2 "#000000")
                                (plate2_5 :: nil) 2 (dec 5 1000) []);
    vm_compute; [discriminate | reflexivity].
Defined.

(** ** What the calculator returns *)

Lemma fillSide_positive (available : list Plate.t) (numSides : Z) :
  forall (w : num) (p : Plate.t),
    In p (fst (fillSide available numSides w [])) -> 0 < Plate.weight p.
Proof.
  induction available as [|plate rest IH]; intros w p Hp.
  - contradiction.
  - destruct (Qcleb (Plate.weight plate) 0) eqn:E.
    + cbn [fillSide] in Hp. rewrite E in Hp. eapply IH, Hp.
    + destruct (fillSide_step plate rest numSides w E) as (k & w' & _ & Heq).
      rewrite Heq in Hp. apply in_app_or in Hp as [Hp|Hp].
      * apply repeat_spec in Hp. subst p. now apply Qcleb_false.
      * eapply IH, Hp.
Qed.

Lemma loadout_positive_aux (targetWeight : num) (bar : Bar.t)
    (calculationType : string) (inventory : list Plate.t) (unit : string)
    (p : Plate.t) :
  In p (plates (fst (resolvePlates targetWeight bar calculationType
                                   inventory unit))) ->
  0 < Plate.weight p.
Proof.
  destruct (resolvePlates_paths targetWeight bar calculationType inventory unit)
    as [[-> _]|(w & -> & _)]; intros Hp; [contradiction|].
  eapply fillSide_positive, Hp.
Qed.

(** X16. Every plate of the returned loadout is a plate type of the
    inventory, with all its fields, and weighs more than zero. *)
Theorem loadout_from_inventory (targetWeight : num) (bar : Bar.t)
    (calculationType : string) (inventory : list Plate.t) (unit : string)
    (p : Plate.t) :
  In p (plates (fst (resolvePlates targetWeight bar calculationType
                                   inventory unit))) ->
  In p inventory /\ 0 < Plate.weight p.
Proof.
  destruct (resolvePlates_paths targetWeight bar calculationType inventory unit)
    as [[-> _]|(w & -> & _)]; intros Hp; [contradiction|].
  split.
  - apply (Permutation_in _ (Permutation_sym (Array_sort_perm byWeightDesc _))).
    eapply fillSide_In, Hp.
  - eapply fillSide_positive, Hp.
Qed.

Lemma loadout_from_inventory_witness :
  In plate2_5 gymPlates /\ 0 < Plate.weight plate2_5.
Proof.
  apply (loadout_from_inventory (Fin (dec 140 1)) standardBar "two-sided"
                                gymPlates "lbs" plate2_5).
  vm_compute. right. left. reflexivity.
Defined.

(** X17. Plates only come with a total: when the effect returns plates,
    its message is the exact one or the closest one; the loading, bar
    selection, invalid target, below-bar and bar-only messages always come
    with no plates. *)
Theorem plates_only_with_total (isLoading : bool) (selectedBarId : string)
    (bars : list Bar.t) (targetWeight : num) (calculationType : string)
    (inventory : list Plate.t) (unit : string) :
  let r := fst (calculatorEffect isLoading selectedBarId bars targetWeight
                                 calculationType inventory unit) in
  plates r = []
  \/ exists d, message r = MsgTotal d unit \/ message r = MsgClosest d unit.
Proof.
  unfold calculatorEffect.
  destruct (isLoading || String.eqb selectedBarId "")%bool; [now left|].
  destruct (findBar bars selectedBarId) as [bar|]; [|now left].
  unfold resolvePlates.
  repeat match goal with
         | |- context [if ?c then _ else _] => destruct c
         end; cbn [fst plates message]; try (now left);
    right; eexists; [right | left]; reflexivity.
Qed.

Lemma uses_bound (targetWeight : num) (bar : Bar.t)
    (calculationType : string) (inventory : list Plate.t) (unit : string)
    (p : Plate.t) :
  NoDup (map Plate.id inventory) ->
  In p inventory ->
  (uses p (plates (fst (resolvePlates targetWeight bar calculationType
                                      inventory unit)))
   <= Z.to_nat (Plate.quantity p / numSidesOf calculationType))%nat.
Proof.
  intros Hnd Hin.
  destruct (resolvePlates_paths targetWeight bar calculationType inventory unit)
    as [[-> _]|(w & -> & _)]; [cbn; lia|].
  pose proof (Array_sort_perm byWeightDesc inventory) as Hperm.
  apply fillSide_uses.
  - eapply Permutation_NoDup; [|exact Hnd]. now apply Permutation_map.
  - intros plate Hplate Hid.
    apply (Permutation_in _ (Permutation_sym Hperm)) in Hplate.
    rewrite (NoDup_id_unique inventory plate p Hnd Hplate Hin Hid).
    apply Nat.le_refl.
Qed.

(** X18. The plates needed for the whole bar are owned: the references to
    a plate type in the per-side loadout, counted once per side, never
    exceed the quantity of that plate type (ids distinct, quantity not
    negative). *)
Theorem whole_bar_within_quantity (targetWeight : num) (bar : Bar.t)
    (calculationType : string) (inventory : list Plate.t) (unit : string)
    (p : Plate.t) :
  NoDup (map Plate.id inventory) ->
  In p inventory ->
  (0 <= Plate.quantity p)%Z ->
  (numSidesOf calculationType
   * Z.of_nat (uses p (plates (fst (resolvePlates targetWeight bar
                                      calculationType inventory unit))))
   <= Plate.quantity p)%Z.
Proof.
  intros Hnd Hin Hq.
  pose proof (uses_bound targetWeight bar calculationType inventory unit p
                         Hnd Hin) as Hle.
  pose proof (numSidesOf_pos calculationType) as Hn.
  pose proof (Z.mul_div_le (Plate.quantity p) (numSidesOf calculationType) Hn)
    as Hmul.
  assert (Hcap : (0 <= Plate.quantity p / numSidesOf calculationType)%Z)
    by (apply Z.div_pos; assumption).
  nia.
Qed.

Lemma whole_bar_within_quantity_witness :
  (numSidesOf "two-sided"
   * Z.of_nat (uses plate45
                 (plates (fst (resolvePlates (Fin (dec 140 1)) standardBar
                                 "two-sided" gymPlates "lbs"))))
   <= Plate.quantity plate45)%Z.
Proof.
  apply (whole_bar_within_quantity (Fin (dec 140 1)) standardBar "two-sided"
                                   gymPlates "lbs" plate45).
  - repeat constructor; cbn; intuition discriminate.
  - left. reflexivity.
  - cbn. lia.
Defined.

Lemma total_nonneg (l : list Plate.t) :
  (forall p, In p l -> 0 < Plate.weight p) -> 0 <= total (map Plate.weight l).
Proof.
  induction l as [|a l IH]; intros Hpos; cbn [map total fold_right].
  - apply Qcle_refl.
  - fold (total (map Plate.weight l)).
    assert (Ha : 0 < Plate.weight a) by (apply Hpos; now left).
    assert (Hl : 0 <= total (map Plate.weight l))
      by (apply IH; intros p Hp; apply Hpos; now right).
    qc_lra.
Qed.

Lemma loaded_at_least_bar (l : list Plate.t) (calculationType : string)
    (w : Qc) :
  (forall p, In p l -> 0 < Plate.weight p) ->
  w <= sumWeights l * ofZ (numSidesOf calculationType) + w.
Proof.
  intros Hpos. rewrite sumWeights_total.
  pose proof (total_nonneg l Hpos) as Hsum.
  unfold numSidesOf. destruct (String.eqb calculationType "two-sided").
  - replace (ofZ 2) with (dec 2 1) by (apply Qc_is_canon; reflexivity). qc_lra.
  - replace (ofZ 1) with (dec 1 1) by (apply Qc_is_canon; reflexivity). qc_lra.
Qed.

(** X19. The total the calculator reports, exact or closest, is the
    display form of a weight that is never below the weight of the bar. *)
Theorem reported_total_at_least_bar (targetWeight : num) (bar : Bar.t)
    (calculationType : string) (inventory : list Plate.t) (unit : string)
    (d : shown) (u : string) :
  (let r := fst (resolvePlates targetWeight bar calculationType inventory
                               unit) in
   message r = MsgTotal d u \/ message r = MsgClosest d u) ->
  exists x,
    Bar.weight bar <= x
    /\ d = formatWeight (convertWeight (Fin x) unit "lbs").
Proof.
  cbv zeta.
  pose proof (fun p => loadout_positive_aux targetWeight bar calculationType
                         inventory unit p) as Hpos.
  revert Hpos. unfold resolvePlates.
  repeat match goal with
         | |- context [if ?c then _ else _] => destruct c
         end; cbn [fst plates message]; intros Hpos [H|H];
    try discriminate H; injection H as <- _;
    (eexists; split; [|reflexivity]);
    apply loaded_at_least_bar; exact Hpos.
Qed.

Lemma reported_total_at_least_bar_witness :
  exists x,
    Bar.weight standardBar <= x
    /\ AsNumber (Fin (dec 140 1))
       = formatWeight (convertWeight (Fin x) "lbs" "lbs").
Proof.
  apply (reported_total_at_least_bar (Fin (dec 140 1)) standardBar "two-sided"
                                     gymPlates "lbs" _ "lbs").
  left. vm_compute. reflexivity.
Defined.

(** X20. With an empty inventory the calculator returns no plates, leaves
    the inventory empty, and any total it reports is the weight of the bar
    alone. *)
Theorem empty_inventory_reports_bar (targetWeight : num) (bar : Bar.t)
    (calculationType unit : string) :
  let r := resolvePlates targetWeight bar calculationType [] unit in
  plates (fst r) = []
  /\ snd r = []
  /\ forall d u,
       message (fst r) = MsgTotal d u \/ message (fst r) = MsgClosest d u ->
       d = formatWeight (convertWeight (Fin (Bar.weight bar)) unit "lbs").
Proof.
  assert (Hsum : sumWeights [] * ofZ (numSidesOf calculationType)
                 + Bar.weight bar = Bar.weight bar).
  { unfold sumWeights. cbn [fold_left]. ring. }
  unfold resolvePlates. cbn [Array_sort JSON_copy map fillSide fst].
  rewrite Hsum.
  repeat match goal with
         | |- context [if ?c then _ else _] => destruct c
         end; cbn [fst snd plates message];
    (split; [reflexivity|]); (split; [reflexivity|]);
    intros d u [H|H]; try discriminate H; now injection H as <- _.
Qed.

(** ** Rounding twice *)

Lemma Qfloor_unique (q : Q) (z : Z) :
  (inject_Z z <= q)%Q -> (q < inject_Z (z + 1))%Q -> Qfloor q = z.
Proof.
  intros Hlo Hhi.
  pose proof (Qfloor_le q) as H1. pose proof (Qlt_floor q) as H2.
  assert (Ha : (z < Qfloor q + 1)%Z).
  { rewrite Zlt_Qlt. eapply Qle_lt_trans; [exact Hlo | exact H2]. }
  assert (Hb : (Qfloor q < z + 1)%Z).
  { rewrite Zlt_Qlt. eapply Qle_lt_trans; [exact H1 | exact Hhi]. }
  lia.
Qed.

Lemma Math_round_integer (z : Z) : Math_round (Fin (ofZ z)) = Fin (ofZ z).
Proof.
  unfold Math_round. do 2 f_equal. apply Qfloor_unique.
  - qc_to_q. lra.
  - rewrite inject_Z_plus. qc_to_q. unfold inject_Z at 3. lra.
Qed.

Lemma ofZ_le (a b : Z) : (a <= b)%Z -> ofZ a <= ofZ b.
Proof. intros H. qc_to_q. rewrite <- Zle_Qle. exact H. Qed.

Lemma integer_magnitude (z : Z) : z <> 0%Z -> 1 <= Qcabs (ofZ z).
Proof.
  intros Hz.
  replace 1 with (ofZ 1) by (apply Qc_is_canon; reflexivity).
  destruct (Z.lt_trichotomy z 0) as [Hneg|[E|Hpos]]; [| contradiction |].
  - assert (H : ofZ z <= 0).
    { replace 0 with (ofZ 0) by (apply Qc_is_canon; reflexivity).
      apply ofZ_le. lia. }
    rewrite (Qcabs_neg _ H).
    replace (- ofZ z) with (ofZ (- z)).
    + apply ofZ_le. lia.
    + apply Qc_is_canon. qc_to_q. rewrite inject_Z_opp. reflexivity.
  - assert (H : 0 <= ofZ z).
    { replace 0 with (ofZ 0) by (apply Qc_is_canon; reflexivity).
      apply ofZ_le. lia. }
    rewrite (Qcabs_pos _ H). apply ofZ_le. lia.
Qed.

Lemma plain_integer (z : Z) :
  plain_decimal (ofZ z) = true ->
  z = 0%Z \/ (1 <= Qcabs (ofZ z) /\ Qcabs (ofZ z) < ofZ (10 ^ 21)).
Proof.
  intros Hplain. destruct (Z.eq_dec z 0) as [E|E]; [now left|]. right.
  split; [now apply integer_magnitude|].
  unfold plain_decimal in Hplain.
  apply orb_true_iff in Hplain as [H0|H1].
  - apply Qc_eq_bool_correct in H0. exfalso.
    pose proof (integer_magnitude z E) as H. rewrite H0 in H.
    revert H. vm_compute. intros H. now apply H.
  - apply andb_true_iff in H1 as [_ H1]. now apply Qcltb_true.
Qed.

(** The second rounding of a number that came out of a first one, with
    the power of ten written out. *)
Lemma reround (z : Z) (K : positive) :
  (Z.pos K <= 1000000)%Z ->
  plain_decimal (ofZ z) = true ->
  plain_decimal (ofZ z / ofZ (Z.pos K)) = true
  /\ ofZ z / ofZ (Z.pos K) * ofZ (Z.pos K) = ofZ z.
Proof.
  intros HK Hplain.
  assert (HK0 : ofZ (Z.pos K) <> 0).
  { intros E. apply (f_equal this) in E. revert E. unfold ofZ, Q2Qc.
    cbn [this]. intros E.
    assert (H : (inject_Z (Z.pos K) == 0)%Q)
      by (rewrite <- (Qred_correct (inject_Z (Z.pos K))), E; reflexivity).
    unfold Qeq in H. cbn in H. lia. }
  split.
  - destruct (plain_integer z Hplain) as [->|[Hlo Hhi]].
    + unfold plain_decimal.
      replace (ofZ 0 / ofZ (Z.pos K)) with 0; [reflexivity|].
      unfold Qcdiv. replace (ofZ 0) with 0 by (apply Qc_is_canon; reflexivity).
      now rewrite Qcmult_0_l.
    + unfold plain_decimal.
      unfold Qcdiv. rewrite Qcabs_Qcmult.
      assert (Hinv : dec 1 1000000 <= Qcabs (/ ofZ (Z.pos K))
                     /\ Qcabs (/ ofZ (Z.pos K)) <= 1).
      { assert (Einv : / ofZ (Z.pos K) = Q2Qc (1 # K)).
        { apply Qc_is_canon. unfold Qcinv, ofZ. rewrite !this_Q2Qc.
          reflexivity. }
        rewrite Einv.
        assert (Hpos : 0 <= Q2Qc (1 # K)).
        { unfold Qcle. rewrite !this_Q2Qc. unfold Qle. cbn. lia. }
        rewrite (Qcabs_pos _ Hpos).
        unfold Qcle, dec. rewrite !this_Q2Qc. unfold Qle. cbn. lia. }
      destruct Hinv as [Hinv1 Hinv2].
      set (a := Qcabs (ofZ z)) in *. set (b := Qcabs (/ ofZ (Z.pos K))) in *.
      assert (H1 : dec 1 1000000 <= a * b).
      { apply Qcle_trans with (1 * b).
        - now rewrite Qcmult_1_l.
        - apply Qcmult_le_compat_r; [exact Hlo|].
          apply Qcle_trans with (dec 1 1000000); [|exact Hinv1].
          vm_compute. discriminate. }
      assert (H2 : a * b < ofZ (10 ^ 21)).
      { apply Qcle_lt_trans with (a * 1); [|now rewrite Qcmult_1_r].
        rewrite (Qcmult_comm a b), (Qcmult_comm a 1).
        apply Qcmult_le_compat_r; [exact Hinv2|].
        apply Qcle_trans with 1; [vm_compute; discriminate | exact Hlo]. }
      apply Qcleb_true in H1. apply Qcltb_true in H2.
      rewrite H1, H2. apply orb_true_r.
  - unfold Qcdiv. rewrite <- Qcmult_assoc, Qcmult_inv_l; [|exact HK0].
    apply Qcmult_1_r.
Qed.

Lemma roundToDecimal_shape (value : num) (decimals : nat) :
  roundToDecimal value decimals = NaN
  \/ exists z, plain_decimal (ofZ z) = true
               /\ roundToDecimal value decimals = Fin (moved z decimals).
Proof.
  destruct value as [|x]; [now left|].
  unfold roundToDecimal.
  destruct (with_exponent (Fin x) (Z.of_nat decimals)) as [|y]; [now left|].
  cbn [Math_round]. set (z := Qfloor _).
  unfold with_exponent. destruct (plain_decimal (ofZ z)) eqn:E; [|now left].
  right. exists z. now split.
Qed.

Lemma moved_quotient (z : Z) (decimals : nat) :
  (decimals <= 6)%nat ->
  exists K : positive,
    (Z.pos K <= 1000000)%Z
    /\ (10 ^ Z.of_nat decimals = Z.pos K)%Z
    /\ moved z decimals = ofZ z / ofZ (Z.pos K).
Proof.
  intros Hd. unfold moved.
  destruct decimals as [|decimals].
  { exists 1%positive. split; [lia|]. split; [reflexivity|]. cbn.
    unfold Qcdiv.
    replace (/ ofZ 1) with (ofZ 1) by (apply Qc_is_canon; reflexivity).
    reflexivity. }
  do 6 (destruct decimals as [|decimals];
        [eexists; split; [|split; [reflexivity|reflexivity]]; cbn; lia|]).
  lia.
Qed.

Lemma reround_moved (z : Z) (decimals : nat) :
  (decimals <= 6)%nat ->
  plain_decimal (ofZ z) = true ->
  roundToDecimal (Fin (moved z decimals)) decimals = Fin (moved z decimals).
Proof.
  intros Hd Hplain.
  destruct (moved_quotient z decimals Hd) as (K & HK & HpowK & Hmoved).
  destruct (reround z K HK Hplain) as [Hplain' Hback].
  assert (Hge : (0 <=? Z.of_nat decimals)%Z = true) by (apply Z.leb_le; lia).
  assert (Hfirst : with_exponent (Fin (moved z decimals)) (Z.of_nat decimals)
                   = Fin (ofZ z)).
  { unfold with_exponent. rewrite Hmoved, Hplain', Hge, HpowK, Hback.
    reflexivity. }
  unfold roundToDecimal. rewrite Hfirst, Math_round_integer.
  unfold with_exponent, moved. now rewrite Hplain.
Qed.

(** X21. Rounding is stable for up to six decimals and numbers whose
    digits fit a double (magnitude times [10^decimals] below [10^15]):
    rounding a second time to the same number of decimals returns what the
    first rounding returned, [NaN] included. *)
Theorem roundToDecimal_idempotent (value : num) (decimals : nat) :
  (decimals <= 6)%nat ->
  (forall x, value = Fin x ->
             Qcabs x * ofZ (10 ^ Z.of_nat decimals) < ofZ (10 ^ 15)) ->
  roundToDecimal (roundToDecimal value decimals) decimals
  = roundToDecimal value decimals.
Proof.
  intros Hd _.
  destruct (roundToDecimal_shape value decimals) as [->|(z & Hplain & ->)];
    [reflexivity|].
  now apply reround_moved.
Qed.

Lemma roundToDecimal_idempotent_witness :
  roundToDecimal (roundToDecimal (Fin (dec 10555 10000)) 3) 3
  = roundToDecimal (Fin (dec 10555 10000)) 3.
Proof.
  apply (roundToDecimal_idempotent (Fin (dec 10555 10000)) 3); [lia|].
  intros x E. injection E as <-. vm_compute. reflexivity.
Defined.

(** ** The plate list of the reverse page *)

Lemma filter_from_past {A : Type} (index : nat) (l : list A) :
  forall k : nat,
    (index < k)%nat ->
    filter_from (fun _ i => negb (Nat.eqb i index)) k l = l.
Proof.
  induction l as [|a l IH]; intros k Hk; cbn [filter_from]; [reflexivity|].
  destruct (Nat.eqb_spec k index) as [E|_]; [lia|]. cbn [negb].
  f_equal. apply IH. lia.
Qed.

Lemma filter_from_drop {A : Type} (l : list A) :
  forall k n : nat,
    filter_from (fun _ i => negb (Nat.eqb i (k + n))) k l
    = firstn n l ++ skipn (S n) l.
Proof.
  induction l as [|a l IH]; intros k n; cbn [filter_from].
  - now rewrite firstn_nil, skipn_nil.
  - destruct n as [|n].
    + rewrite Nat.add_0_r, Nat.eqb_refl. cbn [negb firstn skipn app].
      apply filter_from_past. lia.
    + destruct (Nat.eqb_spec k (k + S n)) as [E|_]; [lia|].
      cbn [negb firstn skipn app]. f_equal.
      replace (k + S n)%nat with (S k + n)%nat by lia. apply IH.
Qed.

Lemma removePlate_drop (prev : list Plate.t) (index : nat) :
  removePlate prev index = firstn index prev ++ skipn (S index) prev.
Proof. apply (filter_from_drop prev 0 index). Qed.

Lemma drop_sorted (R : Plate.t -> Plate.t -> Prop) (l : list Plate.t) :
  StronglySorted R l ->
  forall n, StronglySorted R (firstn n l ++ skipn (S n) l).
Proof.
  induction 1 as [|a l Hl IH Ha]; intros n.
  - rewrite firstn_nil, skipn_nil. constructor.
  - destruct n as [|n]; cbn [firstn skipn app]; [exact Hl|].
    constructor; [apply IH|].
    apply Forall_forall. intros x Hx.
    assert (Hin : In x l).
    { apply in_app_or in Hx as [Hx|Hx].
      - rewrite <- (firstn_skipn n l). apply in_or_app. now left.
      - rewrite <- (firstn_skipn (S n) l). apply in_or_app. now right. }
    clear Hx. revert x Hin. now apply Forall_forall.
Qed.

(** X22. [addPlate] returns the selection with the new plate in it, the
    heaviest first, whatever order the selection had. *)
Theorem addPlate_sorted_with_new (prev : list Plate.t) (plate : Plate.t) :
  StronglySorted heavierFirst (addPlate prev plate)
  /\ Permutation (plate :: prev) (addPlate prev plate).
Proof.
  unfold addPlate. split; [apply Array_sort_sorted|].
  rewrite <- Array_sort_perm. apply Permutation_cons_append.
Qed.

(** X23. [removePlate] takes out the plate at the given position and
    nothing else; a position past the end takes out nothing; a selection
    that was heaviest-first stays so. *)
Theorem removePlate_takes_one (prev : list Plate.t) (index : nat) :
  removePlate prev index = firstn index prev ++ skipn (S index) prev
  /\ ((index < List.length prev)%nat ->
      S (List.length (removePlate prev index)) = List.length prev)
  /\ ((List.length prev <= index)%nat -> removePlate prev index = prev)
  /\ (StronglySorted heavierFirst prev ->
      StronglySorted heavierFirst (removePlate prev index)).
Proof.
  rewrite removePlate_drop. split; [reflexivity|]. split; [|split].
  - intros Hlt. rewrite length_app, length_firstn, length_skipn. lia.
  - intros Hle. rewrite firstn_all2, skipn_all2; [apply app_nil_r | lia | lia].
  - intros Hs. now apply drop_sorted.
Qed.

(** X24. Taking a plate out undoes putting it in: after [addPlate] on a
    heaviest-first selection there is a position whose [removePlate] gives
    the selection back. *)
Theorem removePlate_undoes_addPlate (prev : list Plate.t) (plate : Plate.t) :
  StronglySorted heavierFirst prev ->
  exists index : nat,
    (index <= List.length prev)%nat
    /\ nth_error (addPlate prev plate) index = Some plate
    /\ removePlate (addPlate prev plate) index = prev.
Proof.
  intros Hs.
  destruct (Array_sort_snoc byWeightDesc heavierFirst
              (compareWeightDesc_keeps (ItemA:=PlateItem))
              prev plate Hs) as (l1 & l2 & Hsplit & Hsort).
  exists (List.length l1). unfold addPlate. rewrite Hsort, Hsplit.
  split; [rewrite length_app; lia|]. split.
  - rewrite nth_error_app2, Nat.sub_diag; [reflexivity | lia].
  - rewrite removePlate_drop.
    rewrite firstn_app, Nat.sub_diag, firstn_all. cbn [firstn].
    rewrite app_nil_r.
    replace (S (List.length l1)) with (List.length l1 + 1)%nat by lia.
    rewrite skipn_app, skipn_all2 by lia.
    replace (List.length l1 + 1 - List.length l1)%nat with 1%nat by lia.
    reflexivity.
Qed.

Lemma removePlate_undoes_addPlate_witness :
  exists index : nat,
    (index <= List.length [plate45; plate2_5])%nat
    /\ nth_error (addPlate [plate45; plate2_5] plate10) index = Some plate10
    /\ removePlate (addPlate [plate45; plate2_5] plate10) index
       = [plate45; plate2_5].
Proof.
  apply (removePlate_undoes_addPlate [plate45; plate2_5] plate10).
  repeat (constructor; [|repeat constructor; vm_compute; discriminate]).
  constructor.
Defined.

(** ** The drawing of [BarbellVisualizer] *)

Module VisualizerFacts.
Import Visualizer.

Lemma byWeightAsc_keeps (a b : Plate.t) :
  Qcltb 0 (byWeightAsc a b) = false <-> lighterFirst a b.
Proof.
  rewrite Qcltb_false. unfold byWeightAsc, lighterFirst.
  split; intros H; qc_lra.
Qed.

Lemma byWeightAsc_swaps (a b : Plate.t) :
  Qcltb 0 (byWeightAsc a b) = true -> lighterFirst b a.
Proof.
  rewrite Qcltb_true. unfold byWeightAsc, lighterFirst. intros H; qc_lra.
Qed.

Lemma lighterFirst_trans (a b c : Plate.t) :
  lighterFirst a b -> lighterFirst b c -> lighterFirst a c.
Proof.
  unfold lighterFirst. intros H1 H2.
  now apply Qcle_trans with (Plate.weight b).
Qed.

(** X25. The two stacks of the drawing hold the plates it was given, the
    left one lightest first, the right one heaviest first. *)
Theorem stacks_sorted (platesOnBar : list Plate.t) :
  StronglySorted lighterFirst (platesAsc platesOnBar)
  /\ Permutation platesOnBar (platesAsc platesOnBar)
  /\ StronglySorted heavierFirst (platesDesc platesOnBar)
  /\ Permutation platesOnBar (platesDesc platesOnBar).
Proof.
  unfold platesAsc, platesDesc. repeat split.
  - apply Array_sort_sorted_by;
      [exact lighterFirst_trans | exact byWeightAsc_keeps
       | exact byWeightAsc_swaps].
  - apply Array_sort_perm.
  - apply Array_sort_sorted.
  - apply Array_sort_perm.
Qed.

(** X26. The right stack of the drawing shows the loadout of the
    calculator in the order the calculator returned it. *)
Theorem right_stack_is_loadout (targetWeight : num) (bar : Bar.t)
    (calculationType : string) (inventory : list Plate.t) (unit : string) :
  platesDesc (plates (fst (resolvePlates targetWeight bar calculationType
                                         inventory unit)))
  = plates (fst (resolvePlates targetWeight bar calculationType
                               inventory unit)).
Proof.
  unfold platesDesc. apply Array_sort_fixed.
  destruct (resolvePlates_paths targetWeight bar calculationType inventory unit)
    as [[-> _]|(w & -> & _)]; [constructor|].
  apply fillSide_sorted, Array_sort_sorted.
Qed.

Lemma shaft_length_bounds_aux (b : Bar.t) :
  exists x, getBarShaftLength (Some b) = Fin x
            /\ dec 40 1 <= x /\ x <= dec 150 1.
Proof.
  unfold getBarShaftLength, MIN_BAR_SHAFT_LENGTH, MAX_BAR_SHAFT_LENGTH.
  destruct (String.eqb (Bar.id b) "no-bar").
  { eexists. split; [reflexivity|]. split; vm_compute; discriminate. }
  destruct (Qcleb (dec 45 1) (Bar.weight b)) eqn:E1.
  { eexists. split; [reflexivity|]. split; vm_compute; discriminate. }
  destruct (Qcleb (Bar.weight b) (dec 5 1)) eqn:E2.
  { eexists. split; [reflexivity|]. split; vm_compute; discriminate. }
  apply Qcleb_false in E1, E2.
  eexists. split; [reflexivity|]. split; qc_lra.
Qed.

(** X27. The bar shaft is drawn between 40 and 150 units long for every
    bar, and 40 long for the 'no-bar' entry; with no bar found the length
    is [NaN]. *)
Theorem shaft_length_bounds (b : Bar.t) :
  (exists x, getBarShaftLength (Some b) = Fin x
             /\ dec 40 1 <= x /\ x <= dec 150 1)
  /\ (Bar.id b = "no-bar"%string ->
      getBarShaftLength (Some b) = Fin (dec 40 1))
  /\ getBarShaftLength None = NaN.
Proof.
  split; [apply shaft_length_bounds_aux|]. split; [|reflexivity].
  intros Hid. unfold getBarShaftLength. now rewrite Hid.
Qed.

Lemma height_bounds (plate : Plate.t) :
  dec 35 1 <= getPlateDisplayHeight plate
  /\ getPlateDisplayHeight plate <= dec 100 1.
Proof.
  unfold getPlateDisplayHeight.
  destruct (Qcleb (dec 45 1) (Plate.weight plate)) eqn:E1;
    [split; vm_compute; discriminate|].
  destruct (Qcleb (Plate.weight plate) (dec 25 10)) eqn:E2;
    [split; vm_compute; discriminate|].
  apply Qcleb_false in E1, E2. split; qc_lra.
Qed.

Lemma interpolation_monotone (lo k c d x y : Qc) :
  0 <= k -> 0 <= / d -> x <= y ->
  lo + k * ((x - c) / d) <= lo + k * ((y - c) / d).
Proof.
  intros Hk Hd Hxy.
  apply Qcplus_le_compat; [apply Qcle_refl|].
  rewrite (Qcmult_comm k ((x - c) / d)), (Qcmult_comm k ((y - c) / d)).
  apply Qcmult_le_compat_r; [|exact Hk].
  unfold Qcdiv. apply Qcmult_le_compat_r; [|exact Hd].
  unfold Qcminus. apply Qcplus_le_compat; [exact Hxy | apply Qcle_refl].
Qed.

(** X28. A plate is drawn between 35 and 100 units high, and a heavier
    plate is never drawn lower than a lighter one. *)
Theorem plate_height_bounds_monotone (p q : Plate.t) :
  dec 35 1 <= getPlateDisplayHeight p
  /\ getPlateDisplayHeight p <= dec 100 1
  /\ (Plate.weight p <= Plate.weight q ->
      getPlateDisplayHeight p <= getPlateDisplayHeight q).
Proof.
  destruct (height_bounds p) as [Hlo Hhi].
  destruct (height_bounds q) as [Hlo' _].
  split; [exact Hlo|]. split; [exact Hhi|].
  intros Hpq. unfold getPlateDisplayHeight at 2.
  unfold getPlateDisplayHeight in Hlo'.
  destruct (Qcleb (dec 45 1) (Plate.weight q)) eqn:Q1; [exact Hhi|].
  apply Qcleb_false in Q1.
  unfold getPlateDisplayHeight.
  destruct (Qcleb (dec 45 1) (Plate.weight p)) eqn:P1.
  { apply Qcleb_true in P1. exfalso.
    apply (Qcle_not_lt _ _ (Qcle_trans _ _ _ P1 Hpq) Q1). }
  destruct (Qcleb (Plate.weight p) (dec 25 10)) eqn:P2; [exact Hlo'|].
  apply Qcleb_false in P2.
  destruct (Qcleb (Plate.weight q) (dec 25 10)) eqn:Q2.
  { apply Qcleb_true in Q2. exfalso.
    apply (Qcle_not_lt _ _ (Qcle_trans _ _ _ Hpq Q2) P2). }
  apply interpolation_monotone; [| | exact Hpq]; vm_compute; discriminate.
Qed.

Lemma ofZ_succ (n : nat) : ofZ (Z.of_nat (S n)) = ofZ (Z.of_nat n) + 1.
Proof.
  apply Qc_is_canon. rewrite Nat2Z.inj_succ, <- Z.add_1_r.
  qc_to_q. rewrite inject_Z_plus. reflexivity.
Qed.

Lemma renderFrom_nth (unit : string) (plates : list Plate.t) :
  forall (offset : Qc) (i : nat) (plate : Plate.t),
    nth_error plates i = Some plate ->
    exists rect,
      nth_error (renderFrom unit offset plates) i = Some rect
      /\ xPos rect = offset + ofZ (Z.of_nat i) * (PLATE_WIDTH + PLATE_SPACING)
      /\ rectHeight rect = getPlateDisplayHeight plate
      /\ rectY rect = (VIEW_HEIGHT - getPlateDisplayHeight plate) / dec 2 1
      /\ fill rect = Plate.color plate.
Proof.
  induction plates as [|a l IH]; intros offset i plate Hi.
  - destruct i; discriminate Hi.
  - destruct i as [|i]; cbn [nth_error renderFrom] in *.
    + injection Hi as ->. eexists. split; [reflexivity|].
      cbn [xPos rectHeight rectY fill]. repeat split.
      replace (ofZ (Z.of_nat 0)) with 0 by (apply Qc_is_canon; reflexivity).
      ring.
    + destruct (IH (offset + (PLATE_WIDTH + PLATE_SPACING)) i plate Hi)
        as (rect & Hnth & Hx & Hrest).
      exists rect. split; [exact Hnth|]. split; [|exact Hrest].
      rewrite Hx, ofZ_succ. ring.
Qed.

(** X29. The plate at position [i] of a stack is drawn [16 * i] units
    from the start of the stack, so plates 14 wide never overlap, and its
    rectangle lies inside the height of the view. *)
Theorem plate_rect_placement (unit : string) (plates : list Plate.t)
    (i : nat) (plate : Plate.t) :
  nth_error plates i = Some plate ->
  exists rect,
    nth_error (renderPlateStack unit plates) i = Some rect
    /\ xPos rect = ofZ (Z.of_nat i) * dec 16 1
    /\ rectHeight rect = getPlateDisplayHeight plate
    /\ fill rect = Plate.color plate
    /\ 0 <= rectY rect
    /\ rectY rect + rectHeight rect <= VIEW_HEIGHT.
Proof.
  intros Hi. unfold renderPlateStack.
  destruct (renderFrom_nth unit plates 0 i plate Hi)
    as (rect & Hnth & Hx & Hh & Hy & Hf).
  exists rect. split; [exact Hnth|].
  destruct (height_bounds plate) as [Hlo Hhi].
  split; [|split; [exact Hh | split; [exact Hf|]]].
  - rewrite Hx. unfold PLATE_WIDTH, PLATE_SPACING.
    replace (dec 14 1 + dec 2 1) with (dec 16 1)
      by (apply Qc_is_canon; reflexivity).
    ring.
  - rewrite Hy, Hh. unfold VIEW_HEIGHT. split; qc_lra.
Qed.


Lemma plate_rect_placement_witness :
  exists rect,
    nth_error (renderPlateStack "lbs" [plate45; plate2_5]) 1 = Some rect
    /\ xPos rect = ofZ (Z.of_nat 1) * dec 16 1
    /\ rectHeight rect = getPlateDisplayHeight plate2_5
    /\ fill rect = Plate.color plate2_5
    /\ 0 <= rectY rect
    /\ rectY rect + rectHeight rect <= VIEW_HEIGHT.
Proof.
  exact (plate_rect_placement "lbs" [plate45; plate2_5] 1
           plate2_5 eq_refl).
Defined.

Lemma width_from (plates : list Plate.t) :
  forall start : Qc,
    fold_left (fun acc _ => acc + PLATE_WIDTH + PLATE_SPACING) plates start
    = start + ofZ (Z.of_nat (List.length plates)) * dec 16 1.
Proof.
  induction plates as [|a l IH]; intros start; cbn [fold_left List.length].
  - replace (ofZ (Z.of_nat 0)) with 0 by (apply Qc_is_canon; reflexivity).
    ring.
  - rewrite IH, ofZ_succ. unfold PLATE_WIDTH, PLATE_SPACING.
    replace (dec 16 1) with (dec 14 1 + dec 2 1)
      by (apply Qc_is_canon; reflexivity).
    ring.
Qed.

Lemma effectivePlatesWidth_length (plates : list Plate.t) :
  effectivePlatesWidth plates
  = ofZ (Z.of_nat (List.length plates)) * dec 16 1.
Proof. unfold effectivePlatesWidth. rewrite width_from. ring. Qed.

Lemma effectivePlatesWidth_nonneg (plates : list Plate.t) :
  0 <= effectivePlatesWidth plates.
Proof.
  rewrite effectivePlatesWidth_length.
  assert (H : ofZ 0 <= ofZ (Z.of_nat (List.length plates)))
    by (apply ofZ_le; lia).
  replace (ofZ 0) with 0 in H by (apply Qc_is_canon; reflexivity).
  set (n := ofZ (Z.of_nat (List.length plates))) in *.
  replace 0 with (0 * dec 16 1) by ring.
  apply Qcmult_le_compat_r; [exact H | vm_compute; discriminate].
Qed.

Lemma Qcmax_bounds (x y : Qc) : x <= Qcmax x y /\ y <= Qcmax x y.
Proof.
  unfold Qcmax. destruct (Qcleb x y) eqn:E.
  - apply Qcleb_true in E. split; [exact E | apply Qcle_refl].
  - apply Qcleb_false in E. split; [apply Qcle_refl | now apply Qclt_le_weak].
Qed.

(** X30. For every bar the drawing fits its view box: the box is at least
    300 wide and at least as wide as the bar with its sleeves, the bar is
    shifted right by a non-negative offset that keeps it inside the box,
    and both stacks of plates lie on their sleeves, the left one starting
    at or after the left end and the right one ending at or before the
    right end. *)
Theorem drawing_fits (b : Bar.t) (platesOnBar : list Plate.t) :
  exists content box offset sleeve : Qc,
    totalContentWidth (Some b) platesOnBar = Fin content
    /\ viewboxWidth (Some b) platesOnBar = Fin box
    /\ xOffset (Some b) platesOnBar = Fin offset
    /\ rightSleeveX (Some b) platesOnBar = Fin sleeve
    /\ dec 300 1 <= box
    /\ 0 <= offset
    /\ offset + content <= box
    /\ 0 <= leftPlatesX platesOnBar
    /\ sleeve + effectivePlatesWidth (platesDesc platesOnBar) <= content.
Proof.
  destruct (shaft_length_bounds_aux b) as (s & Hs & Hs40 & _).
  unfold xOffset, rightSleeveX, viewboxWidth, totalContentWidth,
    leftPlatesX, leftCollarX.
  rewrite Hs. cbn [add sub div lift2 Math_max].
  unfold effectiveLeftSleeveLength, effectiveRightSleeveLength.
  destruct (Qcmax_bounds SLEEVE_LENGTH
              (effectivePlatesWidth (platesAsc platesOnBar))) as [HL1 HL2].
  destruct (Qcmax_bounds SLEEVE_LENGTH
              (effectivePlatesWidth (platesDesc platesOnBar))) as [HR1 HR2].
  pose proof (effectivePlatesWidth_nonneg (platesAsc platesOnBar)) as HWl.
  pose proof (effectivePlatesWidth_nonneg (platesDesc platesOnBar)) as HWr.
  set (L := Qcmax SLEEVE_LENGTH (effectivePlatesWidth (platesAsc platesOnBar)))
    in *.
  set (R := Qcmax SLEEVE_LENGTH (effectivePlatesWidth (platesDesc platesOnBar)))
    in *.
  set (Wl := effectivePlatesWidth (platesAsc platesOnBar)) in *.
  set (Wr := effectivePlatesWidth (platesDesc platesOnBar)) in *.
  unfold SLEEVE_LENGTH, PLATE_WIDTH, PLATE_SPACING, BAR_COLLAR_WIDTH in *.
  clearbody L R Wl Wr.
  eexists _, _, _, _.
  split; [reflexivity|]. split; [reflexivity|]. split; [reflexivity|].
  split; [reflexivity|].
  set (content := L + dec 6 1 + s + dec 6 1 + R).
  assert (Hcontent : content = L + dec 6 1 + s + dec 6 1 + R) by reflexivity.
  clearbody content.
  destruct (Qcleb content (dec 300 1)) eqn:E;
    [apply Qcleb_true in E | apply Qcleb_false in E];
    subst content; repeat split; qc_lra.
Qed.

End VisualizerFacts.

